(** * vue-reflect-attribute: the attribute synchronisation engine

    A shallow embedding of [useReflectAttribute] (the repository's single
    logic-bearing file) and the properties its specification states.

    Modelling conventions.
    - A Vue [Ref] is a location of a heap of cells; reading [ref.value] is a
      heap lookup, assigning it a heap update.
    - An element is an identifier; the document maps it to its attributes, a
      finite map from attribute name to content.  [getAttribute] is the map
      lookup ([None] is JavaScript's [null]).  Attribute names are taken as
      they are written (valid, already in the element's case).
    - JavaScript numbers and the conversions between numbers and strings
      belong to the language runtime.  They are taken as an interface
      ([JsNumber]); every theorem holds for every implementation of it.
    - The user's [onAttributeChange] callback is opaque code: an invocation is
      recorded, with its four arguments, in the state's [calls].
    - A statement that throws ([TypeError] on assigning a property of a
      primitive, module code being strict) makes the enclosing function return
      [None].
    - Of [useReflectAttribute] the three closures are embedded:
      [makeAttributeConfigMap], [mountedCallback] with the [watch] callback it
      installs per binding, and the [MutationObserver] callback.  When they
      run ([onMounted], [nextTick], [onUnmounted], Vue's scheduler, the
      browser's microtasks and timers) is the host's part, modelled by
      [step]. *)

From Stdlib Require Import Ascii.
From stdpp Require Import base option list strings gmap.

Set Default Proof Using "Type".

(** ** JavaScript values *)

(** The runtime's numbers: strict equality, [isNaN], [Boolean(n)],
    [Number(s)] for a string, [String(n)], and the constants the conversions
    of the other primitives need. *)
Class JsNumber := {
  num : Type;
  num_strict_eq : num → num → bool;
  num_isNaN : num → bool;
  num_to_boolean : num → bool;
  num_of_string : string → num;
  num_to_string : num → string;
  num_NaN : num;
  num_zero : num;
  num_one : num
}.

Section Engine.
Context {JN : JsNumber}.

(** The primitive values a cell or an ill-typed field can hold. *)
Inductive value :=
  | VUndefined
  | VNull
  | VBool (b : bool)
  | VNum (n : num)
  | VStr (s : string).

(** [a === b] *)
Definition strict_eq (a b : value) : bool :=
  match a, b with
  | VUndefined, VUndefined => true
  | VNull, VNull => true
  | VBool x, VBool y => eqb x y
  | VNum x, VNum y => num_strict_eq x y
  | VStr x, VStr y => String.eqb x y
  | _, _ => false
  end.

(** [Boolean(v)] *)
Definition js_Boolean (v : value) : bool :=
  match v with
  | VUndefined | VNull => false
  | VBool b => b
  | VNum n => num_to_boolean n
  | VStr s => negb (String.eqb s "")
  end.

(** [Number(v)] *)
Definition js_Number (v : value) : num :=
  match v with
  | VUndefined => num_NaN
  | VNull => num_zero
  | VBool b => if b then num_one else num_zero
  | VNum n => n
  | VStr s => num_of_string s
  end.

(** [String(v)] *)
Definition js_String (v : value) : string :=
  match v with
  | VUndefined => "undefined"
  | VNull => "null"
  | VBool b => if b then "true" else "false"
  | VNum n => num_to_string n
  | VStr s => s
  end.

(** [typeof v] *)
Inductive TypeName := TyString | TyBoolean | TyNumber | TyObject | TyUndefined.

Definition typeof (v : value) : TypeName :=
  match v with
  | VUndefined => TyUndefined
  | VNull => TyObject
  | VBool _ => TyBoolean
  | VNum _ => TyNumber
  | VStr _ => TyString
  end.

Definition TypeName_eqb (a b : TypeName) : bool :=
  match a, b with
  | TyString, TyString | TyBoolean, TyBoolean | TyNumber, TyNumber
  | TyObject, TyObject | TyUndefined, TyUndefined => true
  | _, _ => false
  end.

(** [isType]'s second argument: one of the five type names, or [null]. *)
Inductive ExpectedType := Expect (t : TypeName) | ExpectNull.

Definition isType (anyTypeValue : value) (expectedType : ExpectedType) : bool :=
  match expectedType with
  | ExpectNull => strict_eq anyTypeValue VNull
  | Expect TyUndefined => strict_eq anyTypeValue VUndefined
  | Expect t => TypeName_eqb (typeof anyTypeValue) t
  end.

(** ** Cells *)

(** Cells are named by natural numbers, and so are elements. *)

(** What a declaration's [ref] field holds: a Vue ref, or (for an untyped
    caller) a primitive, [RefOther VUndefined] being the missing field. *)
Inductive RefField :=
  | RefCell (l : nat)
  | RefOther (v : value).

(** Truthiness of the field: an object is truthy. *)
Definition ref_truthy (r : RefField) : bool :=
  match r with
  | RefCell _ => true
  | RefOther v => js_Boolean v
  end.

(** [r.value]: a cell's content; a primitive has no such property. *)
Definition ref_value (h : gmap nat value) (r : RefField) : value :=
  match r with
  | RefCell l => default VUndefined (h !! l)
  | RefOther _ => VUndefined
  end.

(** [r.value = v]: throws on a primitive (strict mode). *)
Definition ref_assign (r : RefField) (v : value) (h : gmap nat value)
  : option (gmap nat value) :=
  match r with
  | RefCell l => Some (<[l := v]> h)
  | RefOther _ => None
  end.

(** ** Declarations and bindings *)

Inductive AttrType := TString | TBoolean | TNumber.

Definition AttrType_eqb (a b : AttrType) : bool :=
  match a, b with
  | TString, TString | TBoolean, TBoolean | TNumber, TNumber => true
  | _, _ => false
  end.

(** An optional property of an object literal: absent, present and
    [undefined], or present with a value.  The difference shows under object
    spread, which copies a present property whatever its value. *)
Inductive Optional (A : Type) :=
  | Missing
  | ExplicitUndefined
  | Supplied (a : A).
Global Arguments Missing {A}.
Global Arguments ExplicitUndefined {A}.
Global Arguments Supplied {A} a.

(** [o ?? d], the result being a possibly undefined value. *)
Definition nullish_or {A} (o : Optional A) (d : A) : option A :=
  match o with
  | Supplied a => Some a
  | _ => Some d
  end.

(** [{ p: d, ...config }] read at [p]: the spread overrides the default with
    the declaration's own property when it has one. *)
Definition spread_over {A} (dflt : option A) (o : Optional A) : option A :=
  match o with
  | Missing => dflt
  | ExplicitUndefined => None
  | Supplied a => Some a
  end.

(** [AttributeRefConfig], as a caller can write it. *)
Record AttributeRefConfig := {
  raw_attribute : option string;
  raw_ref : RefField;
  raw_type : Optional AttrType;
  raw_reflect : Optional bool
}.

(** [Required<AttributeRefConfig>]: an entry of the binding table.  [type]
    and [reflect] are [None] when they read [undefined]. *)
Record EffectiveConfig := {
  attribute : string;
  ref : RefField;
  type : option AttrType;
  reflect : option bool
}.

Definition type_is (config : EffectiveConfig) (t : AttrType) : bool :=
  match type config with
  | Some t' => AttrType_eqb t' t
  | None => false
  end.

(** [config.reflect === true] *)
Definition reflect_is_true (config : EffectiveConfig) : bool :=
  match reflect config with
  | Some true => true
  | _ => false
  end.

(** ** [Map<string, V>]: insertion-ordered, [set] on a present key keeps its place *)

Fixpoint Map_set {V} (k : string) (v : V) (m : list (string * V)) : list (string * V) :=
  match m with
  | [] => [(k, v)]
  | (k', v') :: m' =>
      if String.eqb k' k then (k, v) :: m' else (k', v') :: Map_set k v m'
  end.

Fixpoint Map_get {V} (k : string) (m : list (string * V)) : option V :=
  match m with
  | [] => None
  | (k', v') :: m' => if String.eqb k' k then Some v' else Map_get k m'
  end.

Definition Map_keys {V} (m : list (string * V)) : list string := m.*1.

(** ** Configuration normalisation *)

(** What [makeAttributeConfigMap] has built so far: the map, the cells, and
    the arguments of each [console.warn]. *)
Record Normalised := {
  attributeConfigMap : list (string * EffectiveConfig);
  cells : gmap nat value;
  warnings : list (option AttributeRefConfig)
}.

(** [config && config.attribute && config.ref] *)
Definition config_valid (config : option AttributeRefConfig) : bool :=
  match config with
  | None => false
  | Some c =>
      match raw_attribute c with
      | None => false
      | Some a => negb (String.eqb a "") && ref_truthy (raw_ref c)
      end
  end.

(** [{ reflect: config.reflect ?? true, type: config.type ?? 'string',
    ...config }], [a] being the declaration's (truthy) attribute name. *)
Definition effectiveConfig_of (c : AttributeRefConfig) (a : string) : EffectiveConfig :=
  {| attribute := a;
     ref := raw_ref c;
     type := spread_over (nullish_or (raw_type c) TString) (raw_type c);
     reflect := spread_over (nullish_or (raw_reflect c) true) (raw_reflect c) |}.

(** The three guards shared by both coercion branches. *)
Definition needs_coercion (v : value) : bool :=
  negb (isType v (Expect TyBoolean)) && negb (isType v ExpectNull)
  && negb (isType v (Expect TyUndefined)).

(** The coercion of the cell, lines 67 to 72. *)
Definition coerce_cell (effectiveConfig : EffectiveConfig) (h : gmap nat value)
  : option (gmap nat value) :=
  let v := ref_value h (ref effectiveConfig) in
  if type_is effectiveConfig TBoolean && needs_coercion v then
    ref_assign (ref effectiveConfig) (VBool (js_Boolean v)) h
  else if type_is effectiveConfig TNumber && needs_coercion v then
    let coercedValue := js_Number v in
    ref_assign (ref effectiveConfig)
      (if num_isNaN coercedValue then VNull else VNum coercedValue) h
  else Some h.

(** [console.warn('... Invalid attribute configuration ...', config)] *)
Definition warn_invalid (config : option AttributeRefConfig) (acc : Normalised)
  : Normalised :=
  {| attributeConfigMap := attributeConfigMap acc;
     cells := cells acc;
     warnings := warnings acc ++ [config] |}.

(** The body of [attributes.forEach]. *)
Definition normalise_one (config : option AttributeRefConfig) (acc : Normalised)
  : option Normalised :=
  match config with
  | Some c =>
      match raw_attribute c with
      | Some a =>
          if negb (String.eqb a "") && ref_truthy (raw_ref c) then
            let effectiveConfig := effectiveConfig_of c a in
            h ← coerce_cell effectiveConfig (cells acc);
            Some {| attributeConfigMap :=
                      Map_set (attribute effectiveConfig) effectiveConfig
                        (attributeConfigMap acc);
                    cells := h;
                    warnings := warnings acc |}
          else Some (warn_invalid config acc)
      | None => Some (warn_invalid config acc)
      end
  | None => Some (warn_invalid config acc)
  end.

(** [attributes.forEach], from what is built so far. *)
Fixpoint normalise_from (attributes : list (option AttributeRefConfig))
  (acc : Normalised) : option Normalised :=
  match attributes with
  | [] => Some acc
  | config :: rest => acc' ← normalise_one config acc; normalise_from rest acc'
  end.

(** [makeAttributeConfigMap(attributes)], run on the cells [h]: the map it
    returns, the cells as it leaves them, and what it logged. *)
Definition makeAttributeConfigMap (attributes : list (option AttributeRefConfig))
  (h : gmap nat value) : option Normalised :=
  normalise_from attributes
    {| attributeConfigMap := []; cells := h; warnings := [] |}.

(** ** The element, the mutation observer and the engine's state *)

Inductive RecordType := RtAttributes | RtCharacterData | RtChildList.

(** A [MutationRecord].  [by_engine] is a ghost field: it remembers whether
    the write that queued the record was the engine's own; no code reads it. *)
Record MutationRecord := {
  record_type : RecordType;
  record_target : nat;
  attributeName : option string;
  oldValue : option string;
  by_engine : bool
}.

(** One invocation of [onAttributeChange]. *)
Record Call := {
  call_attributeName : string;
  call_oldValue : option string;
  call_newValue : option string;
  call_interpretedValue : value
}.

Record State := {
  targetRef : option nat;                  (* targetRef.value *)
  document : gmap nat (gmap string string);(* each element's attributes *)
  heap : gmap nat value;                   (* the cells *)
  isUpdatingDomFromRef : bool;
  timeouts : nat;                          (* setTimeout callbacks not yet run *)
  observer : option (nat * list string);   (* observed element, attributeFilter *)
  pending : list MutationRecord;           (* records queued for the observer *)
  calls : list Call;
  refToDomSyncStops : list string          (* the watchers installed, by attribute *)
}.

Definition with_document (d : gmap nat (gmap string string)) (st : State) : State :=
  {| targetRef := targetRef st; document := d; heap := heap st;
     isUpdatingDomFromRef := isUpdatingDomFromRef st; timeouts := timeouts st;
     observer := observer st; pending := pending st; calls := calls st;
     refToDomSyncStops := refToDomSyncStops st |}.

Definition with_heap (h : gmap nat value) (st : State) : State :=
  {| targetRef := targetRef st; document := document st; heap := h;
     isUpdatingDomFromRef := isUpdatingDomFromRef st; timeouts := timeouts st;
     observer := observer st; pending := pending st; calls := calls st;
     refToDomSyncStops := refToDomSyncStops st |}.

Definition with_flag (b : bool) (st : State) : State :=
  {| targetRef := targetRef st; document := document st; heap := heap st;
     isUpdatingDomFromRef := b; timeouts := timeouts st;
     observer := observer st; pending := pending st; calls := calls st;
     refToDomSyncStops := refToDomSyncStops st |}.

Definition with_timeouts (n : nat) (st : State) : State :=
  {| targetRef := targetRef st; document := document st; heap := heap st;
     isUpdatingDomFromRef := isUpdatingDomFromRef st; timeouts := n;
     observer := observer st; pending := pending st; calls := calls st;
     refToDomSyncStops := refToDomSyncStops st |}.

Definition with_observer (o : option (nat * list string)) (st : State) : State :=
  {| targetRef := targetRef st; document := document st; heap := heap st;
     isUpdatingDomFromRef := isUpdatingDomFromRef st; timeouts := timeouts st;
     observer := o; pending := pending st; calls := calls st;
     refToDomSyncStops := refToDomSyncStops st |}.

Definition with_pending (q : list MutationRecord) (st : State) : State :=
  {| targetRef := targetRef st; document := document st; heap := heap st;
     isUpdatingDomFromRef := isUpdatingDomFromRef st; timeouts := timeouts st;
     observer := observer st; pending := q; calls := calls st;
     refToDomSyncStops := refToDomSyncStops st |}.

Definition with_calls (c : list Call) (st : State) : State :=
  {| targetRef := targetRef st; document := document st; heap := heap st;
     isUpdatingDomFromRef := isUpdatingDomFromRef st; timeouts := timeouts st;
     observer := observer st; pending := pending st; calls := c;
     refToDomSyncStops := refToDomSyncStops st |}.

Definition with_stops (w : list string) (st : State) : State :=
  {| targetRef := targetRef st; document := document st; heap := heap st;
     isUpdatingDomFromRef := isUpdatingDomFromRef st; timeouts := timeouts st;
     observer := observer st; pending := pending st; calls := calls st;
     refToDomSyncStops := w |}.

Definition with_targetRef (t : option nat) (st : State) : State :=
  {| targetRef := t; document := document st; heap := heap st;
     isUpdatingDomFromRef := isUpdatingDomFromRef st; timeouts := timeouts st;
     observer := observer st; pending := pending st; calls := calls st;
     refToDomSyncStops := refToDomSyncStops st |}.

(** *** The element's attribute interface *)

Definition attributes_of (st : State) (el : nat) : gmap string string :=
  default ∅ (document st !! el).

Definition getAttribute (el : nat) (name : string) (st : State) : option string :=
  attributes_of st el !! name.

Definition hasAttribute (el : nat) (name : string) (st : State) : bool :=
  match getAttribute el name st with
  | Some _ => true
  | None => false
  end.

Definition string_in (a : string) (l : list string) : bool :=
  existsb (String.eqb a) l.

(** The browser queues a record for a write to an observed attribute of the
    observed element ([attributes: true], [attributeOldValue: true]). *)
Definition queue_record (engine : bool) (el : nat) (name : string)
  (old : option string) (st : State) : State :=
  match observer st with
  | Some (observed, attributeFilter) =>
      if Nat.eqb observed el && string_in name attributeFilter then
        with_pending
          (pending st ++ [{| record_type := RtAttributes; record_target := el;
                             attributeName := Some name; oldValue := old;
                             by_engine := engine |}]) st
      else st
  | None => st
  end.

Definition setAttribute (engine : bool) (el : nat) (name content : string)
  (st : State) : State :=
  queue_record engine el name (getAttribute el name st)
    (with_document (<[el := <[name := content]> (attributes_of st el)]> (document st)) st).

(** Removing an absent attribute changes nothing and queues nothing. *)
Definition removeAttribute (engine : bool) (el : nat) (name : string)
  (st : State) : State :=
  match getAttribute el name st with
  | None => st
  | Some old =>
      queue_record engine el name (Some old)
        (with_document (<[el := delete name (attributes_of st el)]> (document st)) st)
  end.

(** [a !== b] on raw attribute values ([string | null]). *)
Definition raw_differs (a b : option string) : bool :=
  match a, b with
  | None, None => false
  | Some x, Some y => negb (String.eqb x y)
  | _, _ => true
  end.

(** A raw attribute value as a JavaScript value. *)
Definition value_of_raw (raw : option string) : value :=
  match raw with
  | Some s => VStr s
  | None => VNull
  end.

(** [v === null || v === undefined ? null : String(v)]: the attribute state a
    String or Number binding wants for the cell value [v]. *)
Definition desired_dom_value (v : value) : option string :=
  if strict_eq v VNull || strict_eq v VUndefined then None else Some (js_String v).

(** ** Outbound synchronisation: the [watch] callback of one binding *)

(** [finally { setTimeout(() => { isUpdatingDomFromRef = false }, 0) }] *)
Definition schedule_clear (st : State) : State :=
  with_timeouts (S (timeouts st)) st.

Definition watchCallback (config : EffectiveConfig) (newValue : value)
  (st : State) : State :=
  let attrName := attribute config in
  match targetRef st with
  | None => st
  | Some currentTargetInWatcher =>
      if type_is config TBoolean then
        let desiredDomPresence := strict_eq newValue (VBool true) in
        let currentDomPresenceInWatcher :=
          hasAttribute currentTargetInWatcher attrName st in
        if negb (eqb currentDomPresenceInWatcher desiredDomPresence) then
          let st1 := with_flag true st in
          schedule_clear
            (if desiredDomPresence
             then setAttribute true currentTargetInWatcher attrName "" st1
             else removeAttribute true currentTargetInWatcher attrName st1)
        else st
      else
        let desiredDomValue := desired_dom_value newValue in
        let currentDomValueInWatcher :=
          getAttribute currentTargetInWatcher attrName st in
        if raw_differs currentDomValueInWatcher desiredDomValue then
          let st1 := with_flag true st in
          schedule_clear
            (match desiredDomValue with
             | None => removeAttribute true currentTargetInWatcher attrName st1
             | Some content =>
                 setAttribute true currentTargetInWatcher attrName content st1
             end)
        else st
  end.

(** ** Initial synchronisation on mount *)

(** [if (config.ref.value !== v) config.ref.value = v] *)
Definition assign_if_different (r : RefField) (v : value) (st : State)
  : option State :=
  if negb (strict_eq (ref_value (heap st) r) v) then
    h ← ref_assign r v (heap st); Some (with_heap h st)
  else Some st.

(** The first half of the body: the cell is pushed to the element. *)
Definition initial_push (target : nat) (config : EffectiveConfig) (st : State)
  : State :=
  let attrName := attribute config in
  let initialRefValue := ref_value (heap st) (ref config) in
  let currentDomRawValue := getAttribute target attrName st in
  if type_is config TBoolean then
    let initialRefPresence := strict_eq initialRefValue (VBool true) in
    if negb (eqb (hasAttribute target attrName st) initialRefPresence) then
      if initialRefPresence
      then setAttribute true target attrName "" st
      else removeAttribute true target attrName st
    else st
  else
    let desiredDomValueInitially := desired_dom_value initialRefValue in
    if raw_differs currentDomRawValue desiredDomValueInitially then
      match desiredDomValueInitially with
      | None => removeAttribute true target attrName st
      | Some content => setAttribute true target attrName content st
      end
    else st.

(** What the second half reads back from the element. *)
Definition interpretedValueFromDom (target : nat) (config : EffectiveConfig)
  (st : State) : value :=
  let attrName := attribute config in
  let currentDomRawValueAfterInitialSync := getAttribute target attrName st in
  if type_is config TBoolean then VBool (hasAttribute target attrName st)
  else if type_is config TNumber then
    let numValue := js_Number (value_of_raw currentDomRawValueAfterInitialSync) in
    match currentDomRawValueAfterInitialSync with
    | None => VNull
    | Some _ => if num_isNaN numValue then VNull else VNum numValue
    end
  else value_of_raw currentDomRawValueAfterInitialSync.

(** The body of [attributeConfigMap.forEach] in [mountedCallback]: the watcher
    is installed, the cell pushed, and with [reflect] the element read back. *)
Definition mount_one (target : nat) (config : EffectiveConfig) (st : State)
  : option State :=
  let st0 := with_stops (refToDomSyncStops st ++ [attribute config]) st in
  let st1 := initial_push target config st0 in
  if reflect_is_true config then
    assign_if_different (ref config) (interpretedValueFromDom target config st1) st1
  else Some st1.

Fixpoint mount_all (target : nat) (configs : list (string * EffectiveConfig))
  (st : State) : option State :=
  match configs with
  | [] => Some st
  | (_, config) :: rest => st' ← mount_one target config st; mount_all target rest st'
  end.

(** [observer.observe(target, { attributes: true, attributeFilter,
    attributeOldValue: true })] *)
Definition observe (target : nat) (attributeFilter : list string) (st : State)
  : State :=
  with_observer (Some (target, attributeFilter)) st.

Definition mountedCallback (table : list (string * EffectiveConfig))
  (target : nat) (st : State) : option State :=
  st' ← mount_all target table st;
  Some (observe target (Map_keys table) st').

(** ** Inbound synchronisation: the [MutationObserver] callback *)

Definition is_attributes (t : RecordType) : bool :=
  match t with
  | RtAttributes => true
  | _ => false
  end.

(** The body of [for (const record of records)]. *)
Definition process_record (table : list (string * EffectiveConfig))
  (onAttributeChange : bool) (currentTarget : nat) (record : MutationRecord)
  (st : State) : option State :=
  if is_attributes (record_type record) && Nat.eqb (record_target record) currentTarget then
    match attributeName record with
    | None => Some st
    | Some name =>
        match Map_get name table with
        | None => Some st
        | Some config =>
            let newValue := getAttribute currentTarget name st in
            let interpretedNewValue :=
              if type_is config TBoolean
              then VBool (hasAttribute currentTarget name st)
              else value_of_raw newValue in
            let st1 :=
              if negb (isUpdatingDomFromRef st) && onAttributeChange
                 && raw_differs (oldValue record) newValue
              then with_calls
                     (calls st ++ [{| call_attributeName := name;
                                      call_oldValue := oldValue record;
                                      call_newValue := newValue;
                                      call_interpretedValue := interpretedNewValue |}])
                     st
              else st in
            if reflect_is_true config then
              assign_if_different (ref config) interpretedNewValue st1
            else Some st1
        end
    end
  else Some st.

Fixpoint process_records (table : list (string * EffectiveConfig))
  (onAttributeChange : bool) (currentTarget : nat) (records : list MutationRecord)
  (st : State) : option State :=
  match records with
  | [] => Some st
  | record :: rest =>
      st' ← process_record table onAttributeChange currentTarget record st;
      process_records table onAttributeChange currentTarget rest st'
  end.

Definition observerCallback (table : list (string * EffectiveConfig))
  (onAttributeChange : bool) (records : list MutationRecord) (st : State)
  : option State :=
  match targetRef st with
  | None => Some st
  | Some currentTarget =>
      process_records table onAttributeChange currentTarget records st
  end.

End Engine.

(** ** The host's scheduling

    The environment of the engine: user code and Vue write cells and run the
    watchers, scripts write attributes, Vue rebinds the target reference, the
    browser delivers the queued records to the observer in a microtask and
    runs timers as tasks.  A task starts only when no microtask is left, so
    a timer never runs while a record is still queued. *)

Section Host.
Context {JN : JsNumber}.

Inductive Event :=
  | CellWrite (l : nat) (v : value)                 (* cell.value = v *)
  | RunWatcher (name : string)                      (* Vue calls a binding's watcher *)
  | ExternalSet (el : nat) (name content : string)  (* a script's setAttribute *)
  | ExternalRemove (el : nat) (name : string)       (* a script's removeAttribute *)
  | TargetChanges (t : option nat)                  (* targetRef.value is rebound *)
  | Deliver                                         (* the observer's microtask *)
  | TimerFires.                                     (* one setTimeout callback *)

(** One event.  The watcher receives the cell's current value; a delivery
    hands the observer all queued records; a timer clears the marker.  [None]
    when the event cannot occur or the code throws. *)

Definition step (table : list (string * EffectiveConfig)) (onAttributeChange : bool)
  (ev : Event) (st : State) : option State :=
  match ev with
  | CellWrite l v => Some (with_heap (<[l := v]> (heap st)) st)
  | RunWatcher name =>
      if string_in name (refToDomSyncStops st) then
        match Map_get name table with
        | Some config =>
            match ref config with
            | RefCell _ =>
                Some (watchCallback config (ref_value (heap st) (ref config)) st)
            | RefOther _ => None
            end
        | None => None
        end
      else None
  | ExternalSet el name content => Some (setAttribute false el name content st)
  | ExternalRemove el name => Some (removeAttribute false el name st)
  | TargetChanges t => Some (with_targetRef t st)
  | Deliver =>
      match pending st with
      | [] => Some st
      | records =>
          observerCallback table onAttributeChange records (with_pending [] st)
      end
  | TimerFires =>
      match timeouts st, pending st with
      | S n, [] => Some (with_flag false (with_timeouts n st))
      | _, _ => None
      end
  end.

Fixpoint run (table : list (string * EffectiveConfig)) (onAttributeChange : bool)
  (evs : list Event) (st : State) : option State :=
  match evs with
  | [] => Some st
  | ev :: rest =>
      st' ← step table onAttributeChange ev st; run table onAttributeChange rest st'
  end.

End Host.

(** ** The composable and the component's hooks *)

Section Lifecycle.
Context {JN : JsNumber}.

Inductive Tick := TickBefore | TickAfter.

(** [IUseReflectAttributeOptions]; [attributes] is [None] when the caller
    leaves it [undefined], [onAttributeChange] says whether a callback is
    given. *)
Record IUseReflectAttributeOptions := {
  attributes : option (list (option AttributeRefConfig));
  onAttributeChange : bool;
  tick : option Tick
}.

(** What the two hooks close over once [useReflectAttribute] has registered
    them. *)
Record Hooks := {
  hooks_table : list (string * EffectiveConfig);
  hooks_onAttributeChange : bool;
  hooks_tick : option Tick
}.

(** [useReflectAttribute(targetRef, options)] up to the registration of the
    hooks: the normalisation of [attributes = []] by default, and no hook at
    all when the table has no key. *)
Definition useReflectAttribute (options : IUseReflectAttributeOptions)
  (h : gmap nat value) : option (Normalised * option Hooks) :=
  n ← makeAttributeConfigMap (default [] (attributes options)) h;
  let attributeFilter := Map_keys (attributeConfigMap n) in
  if Nat.eqb (length attributeFilter) 0 then Some (n, None)
  else Some (n, Some {| hooks_table := attributeConfigMap n;
                        hooks_onAttributeChange := onAttributeChange options;
                        hooks_tick := tick options |}).

(** The component around the engine: whether [window] is defined, how often
    the mount hook has warned, and the targets captured by the
    [mountedCallback]s handed to [nextTick] and not yet run. *)
Record Component := {
  engine : State;
  window_defined : bool;
  mount_warnings : nat;
  nextTicks : list nat
}.

Definition with_engine (st : State) (c : Component) : Component :=
  {| engine := st; window_defined := window_defined c;
     mount_warnings := mount_warnings c; nextTicks := nextTicks c |}.

(** The [onMounted] hook. *)
Definition onMounted (hooks : Hooks) (c : Component) : option Component :=
  if negb (window_defined c) then Some c
  else
    let target := targetRef (engine c) in
    let tick := default TickAfter (hooks_tick hooks) in
    match target with
    | None =>
        Some {| engine := engine c; window_defined := window_defined c;
                mount_warnings := S (mount_warnings c); nextTicks := nextTicks c |}
    | Some target =>
        match tick with
        | TickAfter =>
            Some {| engine := engine c; window_defined := window_defined c;
                    mount_warnings := mount_warnings c;
                    nextTicks := nextTicks c ++ [target] |}
        | TickBefore =>
            st' ← mountedCallback (hooks_table hooks) target (engine c);
            Some (with_engine st' c)
        end
    end.

(** Vue runs the oldest callback handed to [nextTick]. *)
Definition runNextTick (hooks : Hooks) (c : Component) : option Component :=
  match nextTicks c with
  | [] => Some c
  | target :: rest =>
      st' ← mountedCallback (hooks_table hooks) target (engine c);
      Some {| engine := st'; window_defined := window_defined c;
              mount_warnings := mount_warnings c; nextTicks := rest |}
  end.

(** The [onUnmounted] hook on the engine's state: [disconnect] empties the
    observer's record queue, every watcher is stopped. *)
Definition onUnmounted (st : State) : State :=
  with_stops []
    (with_observer None
       (match observer st with
        | Some _ => with_pending [] st
        | None => st
        end)).

End Lifecycle.

(** ** Vocabulary of the statements *)

Section Statements.
Context {JN : JsNumber}.

(** What is built, the warnings apart. *)
Definition built (n : Normalised) : list (string * EffectiveConfig) * gmap nat value :=
  (attributeConfigMap n, cells n).

(** The declaration with its [attribute] field left out. *)
Definition without_attribute (d : AttributeRefConfig)
  : AttributeRefConfig :=
  {| raw_attribute := None; raw_ref := raw_ref d;
     raw_type := raw_type d; raw_reflect := raw_reflect d |}.

(** The declaration with its [ref] field left out. *)
Definition without_ref (d : AttributeRefConfig)
  : AttributeRefConfig :=
  {| raw_attribute := raw_attribute d; raw_ref := RefOther VUndefined;
     raw_type := raw_type d; raw_reflect := raw_reflect d |}.


(** The attribute state the watcher of a binding leaves for the value [v],
    [old] being the state it found: a Boolean binding keeps the content of an
    attribute that is already present. *)
Definition attribute_after (config : EffectiveConfig) (v : value)
  (old : option string) : option string :=
  if type_is config TBoolean then
    if strict_eq v (VBool true) then Some (default "" old) else None
  else desired_dom_value v.

(** The reading of a raw attribute state by a binding's type, as the initial
    synchronisation does it. *)
Definition interpret_raw (config : EffectiveConfig) (raw : option string) : value :=
  if type_is config TBoolean then
    VBool (match raw with Some _ => true | None => false end)
  else if type_is config TNumber then
    match raw with
    | None => VNull
    | Some s => if num_isNaN (num_of_string s) then VNull else VNum (num_of_string s)
    end
  else value_of_raw raw.

(** A table as [makeAttributeConfigMap] builds them: distinct keys, each
    entry filed under its own attribute name. *)
Definition table_wf (table : list (string * EffectiveConfig)) : Prop :=
  NoDup (Map_keys table) ∧ ∀ k cfg, (k, cfg) ∈ table → attribute cfg = k.

(** The value the observer derives from the element for a binding: presence
    for a Boolean binding, the raw content or [null] for every other. *)
Definition interpretedNewValue_of (cfg : EffectiveConfig) (el : nat) (name : string)
  (st : State) : value :=
  if type_is cfg TBoolean then VBool (hasAttribute el name st)
  else value_of_raw (getAttribute el name st).

(** Whether the record is reported to [onAttributeChange]. *)
Definition reported (onAttributeChange : bool) (el : nat) (name : string)
  (r : MutationRecord) (st : State) : bool :=
  negb (isUpdatingDomFromRef st) && onAttributeChange
  && raw_differs (oldValue r) (getAttribute el name st).

(** While a record queued by the engine's own write awaits delivery, the
    marker is raised. *)
Definition marker_invariant (st : State) : Prop :=
  ∀ r, r ∈ pending st → by_engine r = true → isUpdatingDomFromRef st = true.

End Statements.

Section FurtherStatements.
Context {JN : JsNumber}.

(** A cell value the registration coercion of a binding leaves as it is: no
    coercion for a boolean, [null] or [undefined]; a number that is not NaN
    under a Number binding; anything under a binding of another type. *)
Definition settled (cfg : EffectiveConfig) (v : value) : bool :=
  if type_is cfg TBoolean then negb (needs_coercion v)
  else if type_is cfg TNumber then
    negb (needs_coercion v)
    || match v with VNum n => negb (num_isNaN n) | _ => false end
  else true.

(** The name an accepted declaration is registered under. *)
Definition accepted_name (config : option AttributeRefConfig) : option string :=
  if config_valid config then config ≫= raw_attribute else None.

(** The names of the accepted declarations, in the order of the list. *)
Definition accepted_names (attributes : list (option AttributeRefConfig))
  : list string :=
  omap accepted_name attributes.

(** The effective configuration an accepted declaration is registered
    with. *)
Definition accepted_binding (config : option AttributeRefConfig)
  : option EffectiveConfig :=
  if config_valid config then
    c ← config; a ← raw_attribute c; Some (effectiveConfig_of c a)
  else None.

(** The binding of the last accepted declaration that names [name]. *)
Fixpoint last_accepted (name : string) (attributes : list (option AttributeRefConfig))
  : option EffectiveConfig :=
  match attributes with
  | [] => None
  | config :: rest =>
      match last_accepted name rest with
      | Some e => Some e
      | None =>
          match accepted_binding config with
          | Some e => if String.eqb (attribute e) name then Some e else None
          | None => None
          end
      end
  end.

(** Registering a name: a new one goes last, a known one keeps its place. *)
Definition add_name (ks : list string) (k : string) : list string :=
  if string_in k ks then ks else ks ++ [k].

(** Each name once, at the place of its first occurrence. *)
Fixpoint first_occurrences (names : list string) : list string :=
  match names with
  | [] => []
  | x :: rest => x :: List.filter (λ y, negb (String.eqb x y)) (first_occurrences rest)
  end.

(** The record is one the observer acts on: an attribute record of the
    current target for a bound name. *)
Definition record_bound (table : list (string * EffectiveConfig)) (el : nat)
  (r : MutationRecord) : bool :=
  is_attributes (record_type r) && Nat.eqb (record_target r) el
  && match attributeName r with
     | Some name => match Map_get name table with Some _ => true | None => false end
     | None => false
     end.

(** A call as the observer makes it in the state [st]: for a bound name, a
    change of the raw value, the content the element has in [st]. *)
Definition well_reported (table : list (string * EffectiveConfig)) (el : nat)
  (st : State) (c : Call) : Prop :=
  ∃ cfg, Map_get (call_attributeName c) table = Some cfg
    ∧ call_newValue c = getAttribute el (call_attributeName c) st
    ∧ call_oldValue c ≠ call_newValue c
    ∧ call_interpretedValue c
      = (if type_is cfg TBoolean
         then VBool (hasAttribute el (call_attributeName c) st)
         else value_of_raw (getAttribute el (call_attributeName c) st)).

(** A raised marker has a timer waiting to clear it. *)
Definition marker_has_timer (st : State) : Prop :=
  isUpdatingDomFromRef st = true → 0 < timeouts st.

(** The cells after the cell writes of a sequence of events alone. *)
Fixpoint cells_after (evs : list Event) (h : gmap nat value) : gmap nat value :=
  match evs with
  | [] => h
  | CellWrite l v :: rest => cells_after rest (<[l := v]> h)
  | _ :: rest => cells_after rest h
  end.

(** The document after the scripts' attribute writes of a sequence of events
    alone. *)
Fixpoint document_after (evs : list Event) (d : gmap nat (gmap string string))
  : gmap nat (gmap string string) :=
  match evs with
  | [] => d
  | ExternalSet el name content :: rest =>
      document_after rest (<[el := <[name := content]> (default ∅ (d !! el))]> d)
  | ExternalRemove el name :: rest =>
      document_after rest
        (match default ∅ (d !! el) !! name with
         | Some _ => <[el := delete name (default ∅ (d !! el))]> d
         | None => d
         end)
  | _ :: rest => document_after rest d
  end.

End FurtherStatements.

(** ** A runtime over the integers

    An implementation of [JsNumber] on which the model runs: a number is an
    integer or NaN, [Number] reads an optional minus sign and decimal digits
    (the empty string is zero, anything else NaN), [String] prints in
    decimal. *)

(** The position of a character among the decimal digits. *)
Fixpoint position_in (c : Ascii.ascii) (digits : string) (i : Z) : option Z :=
  match digits with
  | EmptyString => None
  | String c' rest => if Ascii.eqb c c' then Some i else position_in c rest (i + 1)%Z
  end.

Definition digit_of_ascii (c : Ascii.ascii) : option Z :=
  position_in c "0123456789" 0%Z.

Fixpoint digits_from (s : string) (acc : Z) : option Z :=
  match s with
  | EmptyString => Some acc
  | String c s' =>
      match digit_of_ascii c with
      | Some d => digits_from s' (10 * acc + d)%Z
      | None => None
      end
  end.

Definition is_minus (c : Ascii.ascii) : bool := Ascii.eqb c "-"%char.

Definition int_of_string (s : string) : option Z :=
  match s with
  | EmptyString => Some 0%Z
  | String c s' =>
      if is_minus c then
        match s' with
        | EmptyString => None
        | _ => Z.opp <$> digits_from s' 0
        end
      else digits_from s 0
  end.

Definition int_eqb (a b : option Z) : bool :=
  match a, b with
  | Some x, Some y => Z.eqb x y
  | _, _ => false
  end.

Definition ascii_of_digit (d : N) : Ascii.ascii :=
  default "9"%char (String.get (N.to_nat d) "0123456789").

(** Decimal digits, most significant first; [fuel] bounds their number. *)
Fixpoint digits_of (fuel : nat) (n : N) (acc : string) : string :=
  match fuel with
  | O => acc
  | S fuel' =>
      let acc' := String (ascii_of_digit (n mod 10)) acc in
      if (n / 10 =? 0)%N then acc' else digits_of fuel' (n / 10) acc'
  end.

Definition N_to_string (n : N) : string :=
  digits_of (S (N.to_nat (N.log2 n))) n "".

Definition int_to_string (a : option Z) : string :=
  match a with
  | Some Z0 => "0"
  | Some (Zpos p) => N_to_string (Npos p)
  | Some (Zneg p) => "-" +:+ N_to_string (Npos p)
  | None => "NaN"
  end.

Definition int_isNaN (a : option Z) : bool :=
  match a with
  | Some _ => false
  | None => true
  end.

Definition IntegerNumbers : JsNumber :=
  {| num := option Z;
     num_strict_eq := int_eqb;
     num_isNaN := int_isNaN;
     num_to_boolean := λ a, negb (int_eqb a (Some 0%Z)) && negb (int_isNaN a);
     num_of_string := int_of_string;
     num_to_string := int_to_string;
     num_NaN := None;
     num_zero := Some 0%Z;
     num_one := Some 1%Z |}.

(** ** A concrete page

    The README's example with a Number binding added: element 7 and five
    cells, on the integer runtime. *)

Definition selected_declaration 
  : AttributeRefConfig (JN := IntegerNumbers) :=
  {| raw_attribute := Some "selected"; raw_ref := RefCell 0;
     raw_type := Supplied TBoolean; raw_reflect := Missing |}.

Definition nameless_declaration 
  : AttributeRefConfig (JN := IntegerNumbers) :=
  {| raw_attribute := Some ""; raw_ref := RefCell 0;
     raw_type := Missing; raw_reflect := Missing |}.

(** The README's example, with a Number binding added: element 7 and five
    cells. *)
Definition readme_attributes : list (option (AttributeRefConfig (JN := IntegerNumbers))) :=
  [ Some {| raw_attribute := Some "disabled"; raw_ref := RefCell 0;
            raw_type := Supplied TBoolean; raw_reflect := Supplied true |};
    Some {| raw_attribute := Some "selected"; raw_ref := RefCell 1;
            raw_type := Supplied TBoolean; raw_reflect := Supplied false |};
    Some {| raw_attribute := Some "text"; raw_ref := RefCell 2;
            raw_type := Supplied TString; raw_reflect := Supplied true |};
    Some {| raw_attribute := Some "paragraph"; raw_ref := RefCell 3;
            raw_type := Supplied TString; raw_reflect := Supplied false |};
    Some {| raw_attribute := Some "count"; raw_ref := RefCell 4;
            raw_type := Supplied TNumber; raw_reflect := Missing |} ].

Definition readme_cells : gmap nat (value (JN := IntegerNumbers)) :=
  {[ 0 := VBool false; 1 := VBool false; 2 := VStr "default text";
     3 := VStr "default text"; 4 := VNull ]}.

Definition disabled_binding : EffectiveConfig (JN := IntegerNumbers) :=
  {| attribute := "disabled"; ref := RefCell 0;
     type := Some TBoolean; reflect := Some true |}.

Definition selected_binding : EffectiveConfig (JN := IntegerNumbers) :=
  {| attribute := "selected"; ref := RefCell 1;
     type := Some TBoolean; reflect := Some false |}.

Definition text_binding : EffectiveConfig (JN := IntegerNumbers) :=
  {| attribute := "text"; ref := RefCell 2;
     type := Some TString; reflect := Some true |}.

Definition paragraph_binding : EffectiveConfig (JN := IntegerNumbers) :=
  {| attribute := "paragraph"; ref := RefCell 3;
     type := Some TString; reflect := Some false |}.

Definition count_binding : EffectiveConfig (JN := IntegerNumbers) :=
  {| attribute := "count"; ref := RefCell 4;
     type := Some TNumber; reflect := Some true |}.

Definition readme_table : list (string * EffectiveConfig (JN := IntegerNumbers)) :=
  [ ("disabled", disabled_binding); ("selected", selected_binding);
    ("text", text_binding); ("paragraph", paragraph_binding);
    ("count", count_binding) ].

(** The page before the engine attaches, the element carrying [attrs]. *)
Definition page (attrs : gmap string string) (cells : gmap nat (value (JN := IntegerNumbers)))
  : State (JN := IntegerNumbers) :=
  {| targetRef := Some 7; document := {[ 7 := attrs ]}; heap := cells;
     isUpdatingDomFromRef := false; timeouts := 0; observer := None;
     pending := []; calls := []; refToDomSyncStops := [] |}.

(** The page once attached. *)
Definition attached (attrs : gmap string string)
  (cells : gmap nat (value (JN := IntegerNumbers))) : State (JN := IntegerNumbers) :=
  {| targetRef := Some 7; document := {[ 7 := attrs ]}; heap := cells;
     isUpdatingDomFromRef := false; timeouts := 0;
     observer := Some (7, Map_keys readme_table);
     pending := []; calls := [];
     refToDomSyncStops := Map_keys readme_table |}.

(** A record the browser queues for an attribute of element 7. *)
Definition record_of (name : string) (old : option string) (engine : bool)
  : MutationRecord :=
  {| record_type := RtAttributes; record_target := 7;
     attributeName := Some name; oldValue := old; by_engine := engine |}.

(** * Properties *)

Example int_of_string_42 : int_of_string "42" = Some 42%Z.
Proof. reflexivity. Qed.

Example int_of_string_abc : int_of_string "abc" = None.
Proof. reflexivity. Qed.

Example int_to_string_42 : int_to_string (Some 42%Z) = "42".
Proof. vm_compute. reflexivity. Qed.

(** ** Values and maps *)

Section Basics.
Context {JN : JsNumber}.

(** Strict equality with a value that is not a number is equality. *)
Lemma strict_eq_exact (a b : value) :
  strict_eq a b = true → (∀ n, b ≠ VNum n) → a = b.
Proof.
  destruct a, b; simpl; intros E Hn; try discriminate; try reflexivity.
  - apply eqb_prop in E. by subst.
  - by destruct (Hn n0).
  - apply String.eqb_eq in E. by subst.
Qed.

Lemma string_eqb_false (a b : string) : a ≠ b → String.eqb a b = false.
Proof. intros. by apply String.eqb_neq. Qed.

Lemma Map_get_set_eq {V} (k : string) (v : V) (m : list (string * V)) :
  Map_get k (Map_set k v m) = Some v.
Proof.
  induction m as [| [k' v'] m IH]; simpl.
  - by rewrite String.eqb_refl.
  - destruct (String.eqb k' k) eqn:E; simpl.
    + by rewrite String.eqb_refl.
    + by rewrite E.
Qed.

Lemma Map_get_set_ne {V} (k k0 : string) (v : V) (m : list (string * V)) :
  k ≠ k0 → Map_get k0 (Map_set k v m) = Map_get k0 m.
Proof.
  intros Hne. induction m as [| [k' v'] m IH]; simpl.
  - by rewrite string_eqb_false.
  - destruct (String.eqb k' k) eqn:E; simpl.
    + apply String.eqb_eq in E. subst k'.
      by rewrite !string_eqb_false.
    + by rewrite IH.
Qed.

Lemma Map_keys_set {V} (k : string) (v : V) (m : list (string * V)) :
  ∀ x, x ∈ Map_keys (Map_set k v m) ↔ x = k ∨ x ∈ Map_keys m.
Proof.
  unfold Map_keys. induction m as [| [k' v'] m IH]; intros x; simpl.
  - rewrite list_elem_of_singleton, elem_of_nil. tauto.
  - destruct (String.eqb k' k) eqn:E; simpl.
    + apply String.eqb_eq in E. subst. rewrite !elem_of_cons. tauto.
    + rewrite !elem_of_cons, IH. tauto.
Qed.

Lemma Map_set_NoDup {V} (k : string) (v : V) (m : list (string * V)) :
  NoDup (Map_keys m) → NoDup (Map_keys (Map_set k v m)).
Proof.
  unfold Map_keys. induction m as [| [k' v'] m IH]; simpl; intros Hnd.
  - apply NoDup_singleton.
  - apply NoDup_cons in Hnd as [Hn Hnd].
    destruct (String.eqb k' k) eqn:E; simpl.
    + apply String.eqb_eq in E. subst. by apply NoDup_cons.
    + apply NoDup_cons. split; [| by apply IH].
      intros Hin. apply (Map_keys_set k v m k') in Hin as [-> | Hin]; [| done].
      by rewrite String.eqb_refl in E.
Qed.

Lemma Map_get_is_Some {V} (k : string) (m : list (string * V)) :
  is_Some (Map_get k m) ↔ k ∈ Map_keys m.
Proof.
  unfold Map_keys. induction m as [| [k' v'] m IH]; simpl.
  - split; [by intros [? ?] | by intros ?%elem_of_nil].
  - destruct (String.eqb k' k) eqn:E.
    + apply String.eqb_eq in E. subst. split; [intros _; apply elem_of_cons; by left | eauto].
    + apply String.eqb_neq in E. rewrite IH, elem_of_cons. naive_solver.
Qed.

End Basics.

(** ** Configuration normalisation *)

Section Normalisation.
Context {JN : JsNumber}.

Implicit Types (config : option AttributeRefConfig) (c d : AttributeRefConfig).
Implicit Types (acc n : Normalised) (h : gmap nat value).

(** The coercion never throws: a primitive in place of the cell reads
    [undefined], which the guards exclude. *)
Lemma coerce_cell_total (e : EffectiveConfig) h : is_Some (coerce_cell e h).
Proof.
  unfold coerce_cell. destruct (ref e) as [l | v]; simpl.
  - repeat case_match; eauto.
  - rewrite !andb_false_r. eauto.
Qed.

Lemma normalise_one_invalid config acc :
  config_valid config = false →
  normalise_one config acc = Some (warn_invalid config acc).
Proof.
  destruct config as [c |]; simpl; [| done].
  destruct (raw_attribute c) as [a |]; [| done].
  by intros ->.
Qed.

Lemma normalise_one_valid c acc :
  config_valid (Some c) = true →
  ∃ a h', raw_attribute c = Some a ∧ a ≠ "" ∧ ref_truthy (raw_ref c) = true
    ∧ coerce_cell (effectiveConfig_of c a) (cells acc) = Some h'
    ∧ normalise_one (Some c) acc
      = Some {| attributeConfigMap :=
                  Map_set a (effectiveConfig_of c a) (attributeConfigMap acc);
                cells := h'; warnings := warnings acc |}.
Proof.
  simpl. destruct (raw_attribute c) as [a |] eqn:Ea; [| done].
  intros Hv. rewrite Hv.
  apply andb_true_iff in Hv as [Hne Ht].
  destruct (coerce_cell_total (effectiveConfig_of c a) (cells acc)) as [h' Hh'].
  exists a, h'. rewrite Hh'. simpl. repeat split; try done.
  intros ->. done.
Qed.

Lemma normalise_one_total config acc : is_Some (normalise_one config acc).
Proof.
  destruct (config_valid config) eqn:E.
  - destruct config as [c |]; [| done].
    destruct (normalise_one_valid c acc E) as (a & h' & _ & _ & _ & _ & ->). eauto.
  - rewrite normalise_one_invalid by done. eauto.
Qed.

Lemma normalise_from_total attributes acc : is_Some (normalise_from attributes acc).
Proof.
  revert acc. induction attributes as [| config rest IH]; intros acc; simpl; [eauto |].
  destruct (normalise_one_total config acc) as [acc' ->]. simpl. apply IH.
Qed.

Lemma normalise_from_cons config rest acc :
  normalise_from (config :: rest) acc
  = acc' ← normalise_one config acc; normalise_from rest acc'.
Proof. reflexivity. Qed.

Lemma normalise_from_app l1 l2 acc :
  normalise_from (l1 ++ l2) acc = acc' ← normalise_from l1 acc; normalise_from l2 acc'.
Proof.
  revert acc. induction l1 as [| config rest IH]; intros acc; simpl; [done |].
  destruct (normalise_one config acc) as [acc' |]; simpl; [apply IH | done].
Qed.

Lemma normalise_one_built config acc1 acc2 :
  built acc1 = built acc2 →
  built <$> normalise_one config acc1 = built <$> normalise_one config acc2.
Proof.
  destruct acc1 as [m1 h1 w1], acc2 as [m2 h2 w2]. intros [= -> ->].
  destruct config as [c |]; simpl; [| done].
  destruct (raw_attribute c) as [a |]; [| done].
  destruct (negb (String.eqb a "") && ref_truthy (raw_ref c)); [| done].
  by destruct (coerce_cell (effectiveConfig_of c a) h2).
Qed.

Lemma normalise_from_built attributes acc1 acc2 :
  built acc1 = built acc2 →
  built <$> normalise_from attributes acc1 = built <$> normalise_from attributes acc2.
Proof.
  revert acc1 acc2. induction attributes as [| config rest IH]; intros acc1 acc2 Hb; simpl.
  - by rewrite Hb.
  - pose proof (normalise_one_built config acc1 acc2 Hb) as H1.
    destruct (normalise_one config acc1) as [a1 |], (normalise_one config acc2) as [a2 |];
      simpl in *; try done.
    apply IH. congruence.
Qed.

(** The log is the list of the invalid declarations, in order. *)
Lemma normalise_from_warnings attributes acc n :
  normalise_from attributes acc = Some n →
  warnings n
  = warnings acc ++ List.filter (λ config, negb (config_valid config)) attributes.
Proof.
  revert acc. induction attributes as [| config rest IH]; intros acc; simpl.
  - intros [= <-]. by rewrite app_nil_r.
  - destruct (normalise_one config acc) as [acc' |] eqn:E1; simpl; [| done].
    intros Hn. rewrite (IH acc' Hn).
    destruct (config_valid config) eqn:Ev; simpl.
    + destruct config as [c |]; [| done].
      destruct (normalise_one_valid c acc Ev) as (a & h' & _ & _ & _ & _ & E2).
      rewrite E1 in E2. by injection E2 as ->.
    + rewrite normalise_one_invalid in E1 by done. injection E1 as <-.
      simpl. by rewrite <- app_assoc.
Qed.

(** An invalid declaration only adds a warning: what is built is what the
    valid declarations alone build. *)
Lemma normalise_from_filter attributes acc :
  built <$> normalise_from (List.filter config_valid attributes) acc
  = built <$> normalise_from attributes acc.
Proof.
  revert acc. induction attributes as [| config rest IH]; intros acc; simpl; [done |].
  destruct (config_valid config) eqn:Ev; simpl.
  - destruct (normalise_one config acc) as [acc' |]; simpl; [apply IH | done].
  - rewrite normalise_one_invalid by done. simpl.
    rewrite IH. by apply normalise_from_built.
Qed.

End Normalisation.

Section NormalisationTable.
Context {JN : JsNumber}.

Implicit Types (config : option AttributeRefConfig) (c d : AttributeRefConfig).
Implicit Types (acc n : Normalised) (h : gmap nat value).

(** Every entry of the map was there before or is the normalisation of a
    valid declaration of the list. *)
Lemma normalise_from_origin attributes acc n name cfg :
  normalise_from attributes acc = Some n →
  Map_get name (attributeConfigMap n) = Some cfg →
  Map_get name (attributeConfigMap acc) = Some cfg
  ∨ ∃ d, Some d ∈ attributes ∧ config_valid (Some d) = true
         ∧ raw_attribute d = Some name ∧ cfg = effectiveConfig_of d name.
Proof.
  revert acc. induction attributes as [| config rest IH]; intros acc; simpl.
  - intros [= <-]. by left.
  - destruct (normalise_one config acc) as [acc' |] eqn:E1; simpl; [| done].
    intros Hn Hg. destruct (IH acc' Hn Hg) as [Hacc' | (d & Hin & Hv & Ha & Hc)].
    + destruct (config_valid config) eqn:Ev.
      * destruct config as [c |]; [| done].
        destruct (normalise_one_valid c acc Ev) as (a & h' & Ha & _ & _ & _ & E2).
        rewrite E1 in E2. injection E2 as ->. simpl in Hacc'.
        destruct (decide (a = name)) as [-> | Hne].
        -- rewrite Map_get_set_eq in Hacc'. injection Hacc' as <-.
           right. exists c. split; [apply elem_of_cons; by left | done].
        -- rewrite Map_get_set_ne in Hacc' by done. by left.
      * rewrite normalise_one_invalid in E1 by done. injection E1 as <-. by left.
    + right. exists d. split; [apply elem_of_cons; by right | done].
Qed.



(** A key of the map stays one, and a valid declaration's name becomes one. *)
Lemma normalise_from_keys_mono attributes acc n k :
  normalise_from attributes acc = Some n →
  k ∈ Map_keys (attributeConfigMap acc) → k ∈ Map_keys (attributeConfigMap n).
Proof.
  revert acc. induction attributes as [| config rest IH]; intros acc; simpl.
  - by intros [= <-].
  - destruct (normalise_one config acc) as [acc' |] eqn:E1; simpl; [| done].
    intros Hn Hk. apply (IH acc' Hn).
    destruct (config_valid config) eqn:Ev.
    + destruct config as [c |]; [| done].
      destruct (normalise_one_valid c acc Ev) as (a & h' & Ha & _ & _ & _ & E2).
      rewrite E1 in E2. injection E2 as ->. simpl.
      apply Map_keys_set. by right.
    + rewrite normalise_one_invalid in E1 by done. by injection E1 as <-.
Qed.

Lemma normalise_from_keys_valid attributes acc n d :
  normalise_from attributes acc = Some n →
  Some d ∈ attributes → config_valid (Some d) = true →
  ∃ a, raw_attribute d = Some a ∧ a ∈ Map_keys (attributeConfigMap n).
Proof.
  revert acc. induction attributes as [| config rest IH]; intros acc; simpl.
  - by intros _ ?%elem_of_nil.
  - destruct (normalise_one config acc) as [acc' |] eqn:E1; simpl; [| done].
    intros Hn [<- | Hin]%elem_of_cons Hv; [| by apply (IH acc')].
    destruct (normalise_one_valid d acc Hv) as (a & h' & Ha & _ & _ & _ & E2).
    rewrite E1 in E2. injection E2 as ->.
    exists a. split; [done |].
    apply (normalise_from_keys_mono rest _ n a Hn). simpl.
    apply Map_keys_set. by left.
Qed.

(** The keys stay distinct. *)
Lemma normalise_from_NoDup attributes acc n :
  normalise_from attributes acc = Some n →
  NoDup (Map_keys (attributeConfigMap acc)) → NoDup (Map_keys (attributeConfigMap n)).
Proof.
  revert acc. induction attributes as [| config rest IH]; intros acc; simpl.
  - by intros [= <-].
  - destruct (normalise_one config acc) as [acc' |] eqn:E1; simpl; [| done].
    intros Hn Hnd. apply (IH acc' Hn).
    destruct (config_valid config) eqn:Ev.
    + destruct config as [c |]; [| done].
      destruct (normalise_one_valid c acc Ev) as (a & h' & Ha & _ & _ & _ & E2).
      rewrite E1 in E2. injection E2 as ->. simpl. by apply Map_set_NoDup.
    + rewrite normalise_one_invalid in E1 by done. by injection E1 as <-.
Qed.

(** The coercion writes at most the declaration's own cell. *)
Lemma coerce_cell_frame (e : EffectiveConfig) h h' (l : nat) :
  coerce_cell e h = Some h' → ref e ≠ RefCell l → h' !! l = h !! l.
Proof.
  unfold coerce_cell, ref_assign. intros Hc Hne.
  destruct (ref e) as [l0 | v0] eqn:Er.
  - assert (l0 ≠ l) by congruence.
    repeat case_match; simplify_eq; try done; by rewrite lookup_insert_ne.
  - repeat case_match; simplify_eq; done.
Qed.

Lemma normalise_one_frame config acc acc' (l : nat) :
  normalise_one config acc = Some acc' →
  (∀ d, config = Some d → raw_ref d ≠ RefCell l) →
  cells acc' !! l = cells acc !! l.
Proof.
  intros E1 Hne. destruct (config_valid config) eqn:Ev.
  - destruct config as [c |]; [| done].
    destruct (normalise_one_valid c acc Ev) as (a & h' & Ha & _ & _ & Hc & E2).
    rewrite E1 in E2. injection E2 as ->. simpl.
    apply (coerce_cell_frame _ _ _ _ Hc). simpl. by apply Hne.
  - rewrite normalise_one_invalid in E1 by done. by injection E1 as <-.
Qed.

Lemma normalise_from_frame attributes acc n (l : nat) :
  normalise_from attributes acc = Some n →
  (∀ d, Some d ∈ attributes → raw_ref d ≠ RefCell l) →
  cells n !! l = cells acc !! l.
Proof.
  revert acc. induction attributes as [| config rest IH]; intros acc; simpl.
  - by intros [= <-].
  - destruct (normalise_one config acc) as [acc' |] eqn:E1; simpl; [| done].
    intros Hn Hne. rewrite (IH acc' Hn).
    + apply (normalise_one_frame _ _ _ _ E1). intros d ->. apply Hne.
      apply elem_of_cons. by left.
    + intros d Hd. apply Hne. apply elem_of_cons. by right.
Qed.

End NormalisationTable.

(** ** Claims on configuration normalisation *)

(** C7. When [makeAttributeConfigMap] reaches an accepted declaration whose
    cell holds a value that is neither a boolean, nor [null], nor
    [undefined], a Boolean-typed declaration replaces the cell's value by its
    truthiness conversion and a Number-typed one by its numeric parse, [null]
    when the parse is NaN; the cell keeps that value to the end of the
    normalisation (so before the first reconciliation) when no later
    declaration is bound to the same cell. *)
Theorem C7_coercion_on_registration {JN : JsNumber}
  (pre post : list (option AttributeRefConfig)) (d : AttributeRefConfig)
  (h : gmap nat value) (npre : Normalised) (a : string) (l : nat) (v : value) :
  makeAttributeConfigMap pre h = Some npre →
  raw_attribute d = Some a → a ≠ "" → raw_ref d = RefCell l →
  ref_value (cells npre) (RefCell l) = v →
  isType v (Expect TyBoolean) = false →
  isType v ExpectNull = false →
  isType v (Expect TyUndefined) = false →
  (∀ d', Some d' ∈ post → raw_ref d' ≠ RefCell l) →
  ∃ n, makeAttributeConfigMap (pre ++ Some d :: post) h = Some n
    ∧ (raw_type d = Supplied TBoolean →
       ref_value (cells n) (RefCell l) = VBool (js_Boolean v))
    ∧ (raw_type d = Supplied TNumber →
       ref_value (cells n) (RefCell l)
       = if num_isNaN (js_Number v) then VNull else VNum (js_Number v)).
Proof.
  intros Hpre Ha Hne Hr Hv Hb Hnull Hu Hpost.
  unfold makeAttributeConfigMap in *.
  rewrite normalise_from_app, Hpre. cbn [mbind option_bind].
  rewrite normalise_from_cons.
  assert (Hvalid : config_valid (Some d) = true).
  { simpl. rewrite Ha, Hr. simpl. by rewrite string_eqb_false. }
  destruct (normalise_one_valid d npre Hvalid) as (a' & h' & Ha' & _ & _ & Hc & E).
  rewrite Ha in Ha'. injection Ha' as <-. rewrite E. cbn [mbind option_bind].
  match goal with |- context [normalise_from post ?acc] =>
    destruct (normalise_from_total post acc) as [n Hn];
    pose proof (normalise_from_frame post acc n l Hn Hpost) as Hfr
  end.
  exists n. split; [done |]. simpl in *. rewrite Hfr.
  unfold coerce_cell, needs_coercion in Hc. simpl in Hc.
  rewrite Hr in Hc. simpl in Hc, Hv. rewrite Hv, Hb, Hnull, Hu in Hc. simpl in Hc.
  unfold type_is in Hc. simpl in Hc.
  split; intros Ht; rewrite Ht in Hc; simpl in Hc; injection Hc as <-;
    by rewrite lookup_insert_eq.
Qed.

(** The specification's example: a Boolean declaration whose cell holds the
    string "yes" leaves the cell holding [true]. *)
Lemma C7_coercion_on_registration_witness :
  ∃ n, makeAttributeConfigMap (JN := IntegerNumbers)
         ([] ++ Some selected_declaration :: []) {[ 0 := VStr "yes" ]} = Some n
    ∧ ref_value (cells n) (RefCell 0) = VBool true.
Proof.
  destruct (C7_coercion_on_registration (JN := IntegerNumbers)
              [] [] selected_declaration {[ 0 := VStr "yes" ]}
              {| attributeConfigMap := []; cells := {[ 0 := VStr "yes" ]}; warnings := [] |}
              "selected" 0 (VStr "yes"))
    as (n & Hn & Hb & _); try reflexivity.
  - discriminate.
  - intros d' Hd'. by apply elem_of_nil in Hd'.
  - exists n. split; [exact Hn | exact (Hb eq_refl)].
Defined.


(** A declaration that leaves both optional fields out. *)
Example defaults_applied :
  ∃ n cfg, makeAttributeConfigMap (JN := IntegerNumbers)
             [Some {| raw_attribute := Some "title"; raw_ref := RefCell 0;
                      raw_type := Missing; raw_reflect := Missing |}] ∅ = Some n
    ∧ Map_get "title" (attributeConfigMap n) = Some cfg
    ∧ type cfg = Some TString ∧ reflect cfg = Some true.
Proof. eexists _, _. repeat split; reflexivity. Qed.

(** A field written out as [undefined] is copied by the spread over the
    default: the binding's [type] then reads [undefined]. *)
Example explicit_undefined_overrides_default :
  ∃ n cfg, makeAttributeConfigMap (JN := IntegerNumbers)
             [Some {| raw_attribute := Some "title"; raw_ref := RefCell 0;
                      raw_type := ExplicitUndefined; raw_reflect := Missing |}] ∅ = Some n
    ∧ Map_get "title" (attributeConfigMap n) = Some cfg
    ∧ type cfg = None ∧ reflect cfg = Some true.
Proof. eexists _, _. repeat split; reflexivity. Qed.

(** C9. For every list of declarations the normalisation completes; the
    warnings logged are exactly the declarations missing a name or a cell, in
    order; the table and the cells are those the other declarations alone
    produce; every such other declaration has its name bound in the table, and
    every name bound comes from one of them. *)
Theorem C9_invalid_declarations_skipped {JN : JsNumber}
  (attributes : list (option AttributeRefConfig)) (h : gmap nat value) :
  ∃ n n', makeAttributeConfigMap attributes h = Some n
    ∧ makeAttributeConfigMap (List.filter config_valid attributes) h = Some n'
    ∧ attributeConfigMap n = attributeConfigMap n'
    ∧ cells n = cells n'
    ∧ warnings n' = []
    ∧ warnings n = List.filter (λ config, negb (config_valid config)) attributes
    ∧ (∀ d, Some d ∈ attributes → config_valid (Some d) = true →
         ∃ a, raw_attribute d = Some a ∧ is_Some (Map_get a (attributeConfigMap n)))
    ∧ (∀ k, k ∈ Map_keys (attributeConfigMap n) →
         ∃ d, Some d ∈ attributes ∧ config_valid (Some d) = true
              ∧ raw_attribute d = Some k).
Proof.
  unfold makeAttributeConfigMap.
  set (acc := {| attributeConfigMap := []; cells := h; warnings := [] |}).
  destruct (normalise_from_total attributes acc) as [n Hn].
  destruct (normalise_from_total (List.filter config_valid attributes) acc) as [n' Hn'].
  exists n, n'. split; [exact Hn |]. split; [exact Hn' |].
  pose proof (normalise_from_filter attributes acc) as Hf.
  rewrite Hn, Hn' in Hf. simpl in Hf. injection Hf as Hm Hc.
  repeat split; try done.
  - rewrite (normalise_from_warnings _ _ _ Hn'). simpl.
    clear. induction attributes as [| x xs IH]; simpl; [done |].
    destruct (config_valid x) eqn:E; simpl; [by rewrite E |]. done.
  - by rewrite (normalise_from_warnings _ _ _ Hn).
  - intros d Hin Hv.
    destruct (normalise_from_keys_valid _ _ _ _ Hn Hin Hv) as (a & Ha & Hk).
    exists a. split; [done |]. by apply Map_get_is_Some.
  - intros k Hk. apply Map_get_is_Some in Hk as [cfg Hg].
    destruct (normalise_from_origin _ _ _ _ _ Hn Hg) as [Hnil | (d & Hin & Hv & Ha & _)].
    + discriminate.
    + by exists d.
Qed.

(** C10. A declaration whose name is the empty string, or whose cell
    reference is falsy, fails the validity test as the declaration with that
    field missing does: processing either one leaves the table and the cells
    as they were and logs the declaration.  Removing it from any list changes
    neither the table nor the cells, and no table ever binds the empty name or
    a falsy cell reference. *)
Theorem C10_falsy_fields_rejected {JN : JsNumber} (d : AttributeRefConfig) :
  raw_attribute d = Some "" ∨ ref_truthy (raw_ref d) = false →
  config_valid (Some d) = false
  ∧ config_valid (Some (without_attribute d)) = false
  ∧ config_valid (Some (without_ref d)) = false
  ∧ (∀ acc, normalise_one (Some d) acc = Some (warn_invalid (Some d) acc)
          ∧ normalise_one (Some (without_attribute d)) acc
            = Some (warn_invalid (Some (without_attribute d)) acc)
          ∧ normalise_one (Some (without_ref d)) acc
            = Some (warn_invalid (Some (without_ref d)) acc))
  ∧ (∀ pre post h, ∃ n n',
        makeAttributeConfigMap (pre ++ Some d :: post) h = Some n
        ∧ makeAttributeConfigMap (pre ++ post) h = Some n'
        ∧ attributeConfigMap n = attributeConfigMap n'
        ∧ cells n = cells n'
        ∧ Some d ∈ warnings n)
  ∧ (∀ attributes h n name cfg,
        makeAttributeConfigMap attributes h = Some n →
        Map_get name (attributeConfigMap n) = Some cfg →
        name ≠ "" ∧ ref_truthy (ref cfg) = true).
Proof.
  intros Hd.
  assert (Hinv : config_valid (Some d) = false).
  { simpl. destruct Hd as [-> | Hr]; [done |].
    destruct (raw_attribute d); [| done]. rewrite Hr. apply andb_false_r. }
  assert (Hinv1 : config_valid (Some (without_attribute d)) = false) by done.
  assert (Hinv2 : config_valid (Some (without_ref d)) = false).
  { simpl. destruct (raw_attribute d); [apply andb_false_r | done]. }
  repeat split; try done.
  - by apply normalise_one_invalid.
  - by apply normalise_one_invalid.
  - intros pre post h. unfold makeAttributeConfigMap.
    set (acc := {| attributeConfigMap := []; cells := h; warnings := [] |}).
    destruct (normalise_from_total (pre ++ Some d :: post) acc) as [n Hn].
    destruct (normalise_from_total (pre ++ post) acc) as [n' Hn'].
    exists n, n'. split; [exact Hn |]. split; [exact Hn' |].
    pose proof (normalise_from_filter (pre ++ Some d :: post) acc) as Hf.
    pose proof (normalise_from_filter (pre ++ post) acc) as Hf'.
    rewrite List.filter_app in Hf, Hf'. cbn [List.filter] in Hf. rewrite Hinv in Hf.
    rewrite Hf' in Hf. rewrite Hn, Hn' in Hf. simpl in Hf. injection Hf as Hm Hc.
    repeat split; try done.
    rewrite (normalise_from_warnings _ _ _ Hn). simpl.
    rewrite List.filter_app. cbn [List.filter]. rewrite Hinv. cbn [negb].
    apply elem_of_app. right. apply elem_of_cons. by left.
  - intros ->.
    destruct (normalise_from_origin _ _ _ _ _ H H0) as [Hnil | (d0 & _ & Hv & Ha & _)];
      [discriminate |].
    simpl in Hv. by rewrite Ha in Hv.
  - destruct (normalise_from_origin _ _ _ _ _ H H0) as [Hnil | (d0 & _ & Hv & Ha & ->)];
      [discriminate |].
    simpl in *. rewrite Ha in Hv. by apply andb_true_iff in Hv as [_ ?].
Qed.

Lemma C10_falsy_fields_rejected_witness :
  config_valid (JN := IntegerNumbers) (Some nameless_declaration) = false
  ∧ ∃ n, makeAttributeConfigMap (JN := IntegerNumbers)
           ([] ++ Some nameless_declaration :: [Some selected_declaration])
           {[ 0 := VBool true ]} = Some n
      ∧ Map_keys (attributeConfigMap n) = ["selected"]
      ∧ warnings n = [Some nameless_declaration].
Proof.
  destruct (C10_falsy_fields_rejected (JN := IntegerNumbers) nameless_declaration)
    as (Hv & _); [by left |].
  split; [exact Hv |].
  eexists. split; [reflexivity |]. split; reflexivity.
Defined.

(** ** The element's attributes *)

Section Dom.
Context {JN : JsNumber}.

Implicit Types (st : State) (el target : nat) (name content : string).

Lemma raw_differs_false (a b : option string) : raw_differs a b = false → a = b.
Proof.
  destruct a as [x |], b as [y |]; simpl; try done.
  intros E%negb_false_iff%String.eqb_eq. by subst.
Qed.

(** Queuing a record touches nothing but the queue. *)
Lemma queue_record_fields (engine : bool) el name old st :
  let st' := queue_record engine el name old st in
  targetRef st' = targetRef st ∧ document st' = document st ∧ heap st' = heap st
  ∧ isUpdatingDomFromRef st' = isUpdatingDomFromRef st ∧ timeouts st' = timeouts st
  ∧ observer st' = observer st ∧ calls st' = calls st
  ∧ refToDomSyncStops st' = refToDomSyncStops st.
Proof.
  unfold queue_record. destruct (observer st) as [[o f] |] eqn:E; simpl; [| by rewrite E].
  destruct (Nat.eqb o el && string_in name f); simpl; by rewrite E.
Qed.

Lemma queue_record_unobserved (engine : bool) el name old st :
  observer st = None → queue_record engine el name old st = st.
Proof. unfold queue_record. by intros ->. Qed.

Lemma queue_record_pending (engine : bool) el name old st :
  pending (queue_record engine el name old st) = pending st
  ∨ pending (queue_record engine el name old st)
    = pending st ++ [{| record_type := RtAttributes; record_target := el;
                        attributeName := Some name; oldValue := old;
                        by_engine := engine |}].
Proof.
  unfold queue_record. destruct (observer st) as [[o f] |]; [| by left].
  destruct (Nat.eqb o el && string_in name f); [by right | by left].
Qed.

Lemma getAttribute_document st1 st2 el name :
  document st1 = document st2 → getAttribute el name st1 = getAttribute el name st2.
Proof. unfold getAttribute, attributes_of. by intros ->. Qed.

Lemma setAttribute_fields (engine : bool) el name content st :
  let st' := setAttribute engine el name content st in
  targetRef st' = targetRef st ∧ heap st' = heap st
  ∧ isUpdatingDomFromRef st' = isUpdatingDomFromRef st ∧ timeouts st' = timeouts st
  ∧ observer st' = observer st ∧ calls st' = calls st
  ∧ refToDomSyncStops st' = refToDomSyncStops st.
Proof.
  unfold setAttribute.
  match goal with |- context [queue_record ?e ?x ?n ?o ?s] =>
    destruct (queue_record_fields e x n o s) as (? & ? & ? & ? & ? & ? & ? & ?) end.
  simpl in *. repeat split; congruence.
Qed.

Lemma removeAttribute_fields (engine : bool) el name st :
  let st' := removeAttribute engine el name st in
  targetRef st' = targetRef st ∧ heap st' = heap st
  ∧ isUpdatingDomFromRef st' = isUpdatingDomFromRef st ∧ timeouts st' = timeouts st
  ∧ observer st' = observer st ∧ calls st' = calls st
  ∧ refToDomSyncStops st' = refToDomSyncStops st.
Proof.
  unfold removeAttribute. destruct (getAttribute el name st); [| done].
  match goal with |- context [queue_record ?e ?x ?n ?o ?s] =>
    destruct (queue_record_fields e x n o s) as (? & ? & ? & ? & ? & ? & ? & ?) end.
  simpl in *. repeat split; congruence.
Qed.

Lemma getAttribute_setAttribute (engine : bool) el name content st el' name' :
  getAttribute el' name' (setAttribute engine el name content st)
  = if decide (el' = el ∧ name' = name) then Some content
    else getAttribute el' name' st.
Proof.
  unfold setAttribute.
  match goal with |- context [queue_record ?e ?x ?n ?o ?s] =>
    destruct (queue_record_fields e x n o s) as (_ & Hd & _) end.
  rewrite (getAttribute_document _ _ _ _ Hd).
  unfold getAttribute, attributes_of. simpl.
  destruct (decide (el' = el)) as [-> | Hne].
  - rewrite lookup_insert_eq. simpl.
    destruct (decide (name' = name)) as [-> | Hn].
    + rewrite lookup_insert_eq. by rewrite decide_True.
    + rewrite lookup_insert_ne by done. rewrite decide_False by tauto. done.
  - rewrite lookup_insert_ne by done. rewrite decide_False by tauto. done.
Qed.

Lemma getAttribute_removeAttribute (engine : bool) el name st el' name' :
  getAttribute el' name' (removeAttribute engine el name st)
  = if decide (el' = el ∧ name' = name) then None
    else getAttribute el' name' st.
Proof.
  unfold removeAttribute. destruct (getAttribute el name st) as [old |] eqn:E.
  - match goal with |- context [queue_record ?e ?x ?n ?o ?s] =>
      destruct (queue_record_fields e x n o s) as (_ & Hd & _) end.
    rewrite (getAttribute_document _ _ _ _ Hd).
    unfold getAttribute, attributes_of. simpl.
    destruct (decide (el' = el)) as [-> | Hne].
    + rewrite lookup_insert_eq. simpl.
      destruct (decide (name' = name)) as [-> | Hn].
      * rewrite lookup_delete_eq. by rewrite decide_True.
      * rewrite lookup_delete_ne by done. rewrite decide_False by tauto. done.
    + rewrite lookup_insert_ne by done. rewrite decide_False by tauto. done.
  - case_decide as Hc; [| done]. destruct Hc as [-> ->]. done.
Qed.

End Dom.

(** ** Outbound synchronisation *)

Section Outbound.
Context {JN : JsNumber}.

Implicit Types (st : State) (el target : nat) (config : EffectiveConfig).

Lemma schedule_clear_fields st :
  let st' := schedule_clear st in
  targetRef st' = targetRef st ∧ document st' = document st ∧ heap st' = heap st
  ∧ isUpdatingDomFromRef st' = isUpdatingDomFromRef st
  ∧ timeouts st' = S (timeouts st)
  ∧ observer st' = observer st ∧ pending st' = pending st ∧ calls st' = calls st
  ∧ refToDomSyncStops st' = refToDomSyncStops st.
Proof. done. Qed.

(** What the watcher does to the element. *)
Lemma watchCallback_attribute config (newValue : value) st el el' name' :
  targetRef st = Some el →
  getAttribute el' name' (watchCallback config newValue st)
  = if decide (el' = el ∧ name' = attribute config)
    then attribute_after config newValue (getAttribute el (attribute config) st)
    else getAttribute el' name' st.
Proof.
  intros Ht. unfold watchCallback, attribute_after. rewrite Ht.
  unfold hasAttribute.
  destruct (type_is config TBoolean).
  - destruct (getAttribute el (attribute config) st) as [old |] eqn:Eold;
      destruct (strict_eq newValue (VBool true)); simpl.
    + case_decide as Hc; [destruct Hc as [-> ->]; by rewrite Eold | done].
    + erewrite getAttribute_document by apply schedule_clear_fields.
      rewrite getAttribute_removeAttribute. by case_decide.
    + erewrite getAttribute_document by apply schedule_clear_fields.
      rewrite getAttribute_setAttribute. by case_decide.
    + case_decide as Hc; [destruct Hc as [-> ->]; by rewrite Eold | done].
  - destruct (raw_differs (getAttribute el (attribute config) st)
                (desired_dom_value newValue)) eqn:Ed.
    + erewrite getAttribute_document by apply schedule_clear_fields.
      destruct (desired_dom_value newValue) as [content |].
      * rewrite getAttribute_setAttribute. by case_decide.
      * rewrite getAttribute_removeAttribute. by case_decide.
    + apply raw_differs_false in Ed.
      case_decide as Hc; [destruct Hc as [-> ->]; done | done].
Qed.

(** The watcher writes no cell, calls no callback and leaves the target
    reference, the observer and the installed watchers alone. *)
Lemma watchCallback_fields config (newValue : value) st :
  let st' := watchCallback config newValue st in
  targetRef st' = targetRef st ∧ heap st' = heap st ∧ calls st' = calls st
  ∧ observer st' = observer st ∧ refToDomSyncStops st' = refToDomSyncStops st.
Proof.
  unfold watchCallback. destruct (targetRef st) as [el |] eqn:Ht; [| done].
  repeat case_match; try done;
    match goal with
    | |- context [setAttribute ?e ?x ?n ?c ?s] =>
        destruct (setAttribute_fields e x n c s) as (? & ? & ? & ? & ? & ? & ?)
    | |- context [removeAttribute ?e ?x ?n ?s] =>
        destruct (removeAttribute_fields e x n s) as (? & ? & ? & ? & ? & ? & ?)
    end; simpl in *; repeat split; congruence.
Qed.

(** Either the watcher finds the element as wanted and does nothing, or it
    raises the marker, schedules its clearing, and queues at most one record,
    marked as the engine's. *)
Lemma watchCallback_marker config (newValue : value) st :
  let st' := watchCallback config newValue st in
  st' = st
  ∨ (isUpdatingDomFromRef st' = true ∧ timeouts st' = S (timeouts st)
     ∧ (pending st' = pending st
        ∨ ∃ r, pending st' = pending st ++ [r] ∧ by_engine r = true
               ∧ attributeName r = Some (attribute config))).
Proof.
  unfold watchCallback. destruct (targetRef st) as [el |] eqn:Ht; [| by left].
  assert (Hset : ∀ content,
    let st' := schedule_clear (setAttribute true el (attribute config) content
                                 (with_flag true st)) in
    isUpdatingDomFromRef st' = true ∧ timeouts st' = S (timeouts st)
    ∧ (pending st' = pending st
       ∨ ∃ r, pending st' = pending st ++ [r] ∧ by_engine r = true
              ∧ attributeName r = Some (attribute config))).
  { intros content. simpl.
    destruct (setAttribute_fields true el (attribute config) content (with_flag true st))
      as (_ & _ & Hf & Hti & _).
    simpl in *. rewrite Hf, Hti. repeat split.
    unfold setAttribute.
    match goal with |- context [queue_record ?e ?x ?n ?o ?s] =>
      destruct (queue_record_pending e x n o s) as [-> | ->] end; simpl; eauto. }
  assert (Hrem :
    let st' := schedule_clear (removeAttribute true el (attribute config)
                                 (with_flag true st)) in
    isUpdatingDomFromRef st' = true ∧ timeouts st' = S (timeouts st)
    ∧ (pending st' = pending st
       ∨ ∃ r, pending st' = pending st ++ [r] ∧ by_engine r = true
              ∧ attributeName r = Some (attribute config))).
  { simpl.
    destruct (removeAttribute_fields true el (attribute config) (with_flag true st))
      as (_ & _ & Hf & Hti & _).
    simpl in *. rewrite Hf, Hti. repeat split.
    unfold removeAttribute.
    destruct (getAttribute el (attribute config) (with_flag true st)); [| by left].
    match goal with |- context [queue_record ?e ?x ?n ?o ?s] =>
      destruct (queue_record_pending e x n o s) as [-> | ->] end; simpl; eauto. }
  repeat case_match; try (by left); right; first [apply Hset | apply Hrem].
Qed.

End Outbound.

(** ** Initial synchronisation *)

Section Mount.
Context {JN : JsNumber}.

Implicit Types (st : State) (el target : nat) (config : EffectiveConfig).

Lemma interpretedValueFromDom_raw target config st :
  interpretedValueFromDom target config st
  = interpret_raw config (getAttribute target (attribute config) st).
Proof.
  unfold interpretedValueFromDom, interpret_raw, hasAttribute.
  by destruct (getAttribute target (attribute config) st).
Qed.

Lemma interpret_raw_not_undefined config raw : interpret_raw config raw ≠ VUndefined.
Proof. unfold interpret_raw, value_of_raw. repeat case_match; discriminate. Qed.

(** The push leaves the element as the watcher would for the cell's value. *)
Lemma initial_push_attribute target config st el' name' :
  getAttribute el' name' (initial_push target config st)
  = if decide (el' = target ∧ name' = attribute config)
    then attribute_after config (ref_value (heap st) (ref config))
           (getAttribute target (attribute config) st)
    else getAttribute el' name' st.
Proof.
  unfold initial_push, attribute_after, hasAttribute.
  destruct (type_is config TBoolean).
  - destruct (getAttribute target (attribute config) st) as [old |] eqn:Eold;
      destruct (strict_eq (ref_value (heap st) (ref config)) (VBool true)); simpl.
    + case_decide as Hc; [destruct Hc as [-> ->]; by rewrite Eold | done].
    + rewrite getAttribute_removeAttribute. by case_decide.
    + rewrite getAttribute_setAttribute. by case_decide.
    + case_decide as Hc; [destruct Hc as [-> ->]; by rewrite Eold | done].
  - destruct (raw_differs (getAttribute target (attribute config) st)
                (desired_dom_value (ref_value (heap st) (ref config)))) eqn:Ed.
    + destruct (desired_dom_value (ref_value (heap st) (ref config))) as [content |].
      * rewrite getAttribute_setAttribute. by case_decide.
      * rewrite getAttribute_removeAttribute. by case_decide.
    + apply raw_differs_false in Ed.
      case_decide as Hc; [destruct Hc as [-> ->]; done | done].
Qed.

Lemma initial_push_fields target config st :
  let st' := initial_push target config st in
  targetRef st' = targetRef st ∧ heap st' = heap st
  ∧ isUpdatingDomFromRef st' = isUpdatingDomFromRef st ∧ timeouts st' = timeouts st
  ∧ observer st' = observer st ∧ calls st' = calls st
  ∧ refToDomSyncStops st' = refToDomSyncStops st.
Proof.
  unfold initial_push.
  repeat case_match; try done;
    first [apply setAttribute_fields | apply removeAttribute_fields].
Qed.

(** Before [observe] is called no record is queued. *)
Lemma initial_push_pending target config st :
  observer st = None → pending (initial_push target config st) = pending st.
Proof.
  intros Ho. unfold initial_push, setAttribute, removeAttribute.
  repeat case_match; try done; by rewrite queue_record_unobserved.
Qed.

(** The cell after [if (ref.value !== v) ref.value = v]. *)
Lemma assign_if_different_cell (l : nat) (v : value) st :
  ∃ st', assign_if_different (RefCell l) v st = Some st'
    ∧ document st' = document st ∧ targetRef st' = targetRef st
    ∧ isUpdatingDomFromRef st' = isUpdatingDomFromRef st ∧ timeouts st' = timeouts st
    ∧ observer st' = observer st ∧ pending st' = pending st ∧ calls st' = calls st
    ∧ refToDomSyncStops st' = refToDomSyncStops st
    ∧ (∀ l', l' ≠ l → heap st' !! l' = heap st !! l')
    ∧ (ref_value (heap st') (RefCell l) = v
       ∨ (heap st' = heap st ∧ strict_eq (ref_value (heap st) (RefCell l)) v = true)).
Proof.
  unfold assign_if_different.
  destruct (strict_eq (ref_value (heap st) (RefCell l)) v) eqn:E; simpl.
  - exists st. repeat split; try done. by right.
  - eexists. split; [done |]. simpl. repeat split; try done.
    + intros l' Hne. by rewrite lookup_insert_ne.
    + left. by rewrite lookup_insert_eq.
Qed.

(** When the value assigned is not a number the cell holds exactly it. *)
Lemma assign_if_different_exact (l : nat) (v : value) st st' :
  assign_if_different (RefCell l) v st = Some st' →
  (∀ n, v ≠ VNum n) →
  ref_value (heap st') (RefCell l) = v.
Proof.
  intros Ha Hn.
  destruct (assign_if_different_cell l v st) as (st'' & Ha' & _ & _ & _ & _ & _ & _ & _ & _ & _ & Hc).
  rewrite Ha in Ha'. injection Ha' as <-.
  destruct Hc as [Hc | [Hh Hc]]; [done |].
  rewrite Hh. by apply strict_eq_exact.
Qed.

(** One binding's initial synchronisation, on a binding bound to a cell. *)
Lemma mount_one_cell target config (l : nat) st :
  ref config = RefCell l →
  ∃ st', mount_one target config st = Some st'
    ∧ (∀ el' name', getAttribute el' name' st'
         = if decide (el' = target ∧ name' = attribute config)
           then attribute_after config (ref_value (heap st) (RefCell l))
                  (getAttribute target (attribute config) st)
           else getAttribute el' name' st)
    ∧ (∀ l', l' ≠ l → heap st' !! l' = heap st !! l')
    ∧ (if reflect_is_true config then
         let v := interpret_raw config (getAttribute target (attribute config) st') in
         ref_value (heap st') (RefCell l) = v
         ∨ (heap st' = heap st ∧ strict_eq (ref_value (heap st) (RefCell l)) v = true)
       else heap st' = heap st)
    ∧ targetRef st' = targetRef st
    ∧ isUpdatingDomFromRef st' = isUpdatingDomFromRef st
    ∧ timeouts st' = timeouts st ∧ observer st' = observer st
    ∧ calls st' = calls st
    ∧ (observer st = None → pending st' = pending st)
    ∧ refToDomSyncStops st' = refToDomSyncStops st ++ [attribute config].
Proof.
  intros Hr. unfold mount_one.
  set (st0 := with_stops (refToDomSyncStops st ++ [attribute config]) st).
  set (st1 := initial_push target config st0).
  assert (Hattr : ∀ el' name', getAttribute el' name' st1
            = if decide (el' = target ∧ name' = attribute config)
              then attribute_after config (ref_value (heap st) (RefCell l))
                     (getAttribute target (attribute config) st)
              else getAttribute el' name' st).
  { intros el' name'. unfold st1. rewrite initial_push_attribute. by rewrite Hr. }
  destruct (initial_push_fields target config st0) as (Ht & Hh & Hf & Hti & Ho & Hc & Hs).
  fold st1 in Ht, Hh, Hf, Hti, Ho, Hc, Hs. simpl in *.
  destruct (reflect_is_true config) eqn:Erf.
  - rewrite Hr.
    destruct (assign_if_different_cell l (interpretedValueFromDom target config st1) st1)
      as (st' & Ha & Hd' & Ht' & Hf' & Hti' & Ho' & Hp' & Hc' & Hs' & Hfr & Hcell).
    exists st'. split; [exact Ha |].
    assert (Hg : ∀ el' name', getAttribute el' name' st' = getAttribute el' name' st1)
      by (intros; by apply getAttribute_document).
    repeat split; try congruence.
    + intros el' name'. by rewrite Hg.
    + intros l' Hne. rewrite Hfr by done. by rewrite Hh.
    + rewrite interpretedValueFromDom_raw in Hcell. rewrite Hg.
      rewrite Hh in Hcell. destruct Hcell as [Hcell | [Hheap Hcell]]; [by left |].
      right. split; [congruence | done].
    + intros Hnone. rewrite Hp'. by apply (initial_push_pending target config st0).
  - exists st1. repeat split; try done.
    + intros l' _. by rewrite Hh.
    + intros Hnone. by apply (initial_push_pending target config st0).
Qed.

End Mount.

Section MountTable.
Context {JN : JsNumber}.

Implicit Types (st : State) (el target : nat) (config cfg : EffectiveConfig).
Implicit Types (table : list (string * EffectiveConfig)).

(** A binding on a primitive in place of a cell: with [reflect] the
    read-back throws, without it nothing but the element is touched. *)
Lemma mount_one_frame target config st st' :
  mount_one target config st = Some st' →
  (∀ el' name', ¬ (el' = target ∧ name' = attribute config) →
     getAttribute el' name' st' = getAttribute el' name' st)
  ∧ (∀ l', ref config ≠ RefCell l' → heap st' !! l' = heap st !! l')
  ∧ targetRef st' = targetRef st
  ∧ isUpdatingDomFromRef st' = isUpdatingDomFromRef st
  ∧ timeouts st' = timeouts st ∧ observer st' = observer st ∧ calls st' = calls st
  ∧ (observer st = None → pending st' = pending st).
Proof.
  destruct (ref config) as [l | v] eqn:Er.
  - destruct (mount_one_cell target config l st Er)
      as (st'' & -> & Hattr & Hfr & _ & Ht & Hf & Hti & Ho & Hc & Hp & _).
    intros [= <-]. repeat split; try done.
    + intros el' name' Hne. rewrite Hattr. by rewrite decide_False.
    + intros l' Hne. apply Hfr. congruence.
  - unfold mount_one.
    set (st0 := with_stops (refToDomSyncStops st ++ [attribute config]) st).
    destruct (initial_push_fields target config st0) as (Ht & Hh & Hf & Hti & Ho & Hc & Hs).
    destruct (reflect_is_true config).
    + unfold assign_if_different. rewrite Er. simpl.
      rewrite interpretedValueFromDom_raw.
      destruct (interpret_raw _ _) eqn:Ei; simpl; try done.
      by apply interpret_raw_not_undefined in Ei.
    + intros [= <-]. repeat split; try done.
      * intros el' name' Hne. rewrite initial_push_attribute. by rewrite decide_False.
      * intros l' _. by rewrite Hh.
      * intros Hnone. by apply (initial_push_pending target config st0).
Qed.

Lemma mount_all_app target l1 l2 st :
  mount_all target (l1 ++ l2) st = st' ← mount_all target l1 st; mount_all target l2 st'.
Proof.
  revert st. induction l1 as [| [k cfg] l1 IH]; intros st; simpl; [done |].
  destruct (mount_one target cfg st); simpl; [apply IH | done].
Qed.

Lemma mount_all_frame target table st st' :
  mount_all target table st = Some st' →
  (∀ el' name', (∀ k cfg, (k, cfg) ∈ table → ¬ (el' = target ∧ name' = attribute cfg)) →
     getAttribute el' name' st' = getAttribute el' name' st)
  ∧ (∀ l', (∀ k cfg, (k, cfg) ∈ table → ref cfg ≠ RefCell l') →
       heap st' !! l' = heap st !! l')
  ∧ targetRef st' = targetRef st
  ∧ isUpdatingDomFromRef st' = isUpdatingDomFromRef st
  ∧ timeouts st' = timeouts st ∧ observer st' = observer st ∧ calls st' = calls st
  ∧ (observer st = None → pending st' = pending st).
Proof.
  revert st. induction table as [| [k cfg] rest IH]; intros st; simpl.
  - by intros [= <-].
  - destruct (mount_one target cfg st) as [st1 |] eqn:E1; simpl; [| done].
    intros Hrest.
    destruct (mount_one_frame _ _ _ _ E1) as (Ha1 & Hh1 & Ht1 & Hf1 & Hti1 & Ho1 & Hc1 & Hp1).
    destruct (IH st1 Hrest) as (Ha & Hh & Ht & Hf & Hti & Ho & Hc & Hp).
    repeat split; try congruence.
    + intros el' name' Hne. rewrite Ha, Ha1; [done | |].
      * apply (Hne k cfg). apply elem_of_cons. by left.
      * intros k' cfg' Hin. apply (Hne k' cfg'). apply elem_of_cons. by right.
    + intros l' Hne. rewrite Hh, Hh1; [done | |].
      * apply (Hne k cfg). apply elem_of_cons. by left.
      * intros k' cfg' Hin. apply (Hne k' cfg'). apply elem_of_cons. by right.
    + intros Hnone. rewrite Hp, Hp1; [done | done | congruence].
Qed.

(** What the whole initial synchronisation does to one binding whose cell no
    other binding of the table shares. *)
Lemma mountedCallback_binding table target st st' k cfg (l : nat) :
  table_wf table → (k, cfg) ∈ table → ref cfg = RefCell l →
  (∀ k' cfg', (k', cfg') ∈ table → ref cfg' = RefCell l → k' = k) →
  mountedCallback table target st = Some st' →
  let v0 := ref_value (heap st) (RefCell l) in
  let v1 := ref_value (heap st') (RefCell l) in
  getAttribute target k st' = attribute_after cfg v0 (getAttribute target k st)
  ∧ (if reflect_is_true cfg then
       v1 = interpret_raw cfg (getAttribute target k st')
       ∨ (v1 = v0 ∧ strict_eq v0 (interpret_raw cfg (getAttribute target k st')) = true)
     else v1 = v0).
Proof.
  intros [Hnd Hkey] Hin Hr Hsole. unfold mountedCallback.
  destruct (mount_all target table st) as [st2 |] eqn:Hall; simpl; [| done].
  intros [= <-].
  apply list_elem_of_split in Hin as (pre & post & ->).
  rewrite mount_all_app in Hall.
  destruct (mount_all target pre st) as [sa |] eqn:Hpre; simpl in Hall; [| done].
  destruct (mount_one target cfg sa) as [sb |] eqn:Hone; simpl in Hall; [| done].
  assert (Hk : attribute cfg = k).
  { apply Hkey. apply elem_of_app. right. apply elem_of_cons. by left. }
  unfold Map_keys in Hnd. rewrite fmap_app, fmap_cons in Hnd. simpl in Hnd.
  apply NoDup_app in Hnd as (_ & Hdisj & Hnd2).
  apply NoDup_cons in Hnd2 as [Hnotin _].
  assert (Hpre_k : ∀ k' cfg', (k', cfg') ∈ pre → attribute cfg' ≠ k ∧ ref cfg' ≠ RefCell l).
  { intros k' cfg' Hin'.
    assert (Hk' : attribute cfg' = k').
    { apply Hkey. apply elem_of_app. by left. }
    assert (Hne : k' ≠ k).
    { intros ->. apply (Hdisj k).
      - apply list_elem_of_fmap. by exists (k, cfg').
      - apply elem_of_cons. by left. }
    split; [congruence |].
    intros Hrl. apply Hne. apply (Hsole k' cfg'); [| done].
    apply elem_of_app. by left. }
  assert (Hpost_k : ∀ k' cfg', (k', cfg') ∈ post → attribute cfg' ≠ k ∧ ref cfg' ≠ RefCell l).
  { intros k' cfg' Hin'.
    assert (Hk' : attribute cfg' = k').
    { apply Hkey. apply elem_of_app. right. apply elem_of_cons. by right. }
    assert (Hne : k' ≠ k).
    { intros ->. apply Hnotin. apply list_elem_of_fmap. by exists (k, cfg'). }
    split; [congruence |].
    intros Hrl. apply Hne. apply (Hsole k' cfg'); [| done].
    apply elem_of_app. right. apply elem_of_cons. by right. }
  destruct (mount_all_frame _ _ _ _ Hpre) as (Ha_pre & Hh_pre & _).
  destruct (mount_all_frame _ _ _ _ Hall) as (Ha_post & Hh_post & _).
  destruct (mount_one_cell target cfg l sa Hr)
    as (sb' & Hone' & Hattr & _ & Hcell & _).
  rewrite Hone in Hone'. injection Hone' as <-.
  assert (Ea : getAttribute target k sa = getAttribute target k st).
  { apply Ha_pre. intros k' cfg' Hin' [_ Heq]. by destruct (Hpre_k k' cfg' Hin'). }
  assert (Eh : heap sa !! l = heap st !! l).
  { apply Hh_pre. intros k' cfg' Hin'. by destruct (Hpre_k k' cfg' Hin'). }
  assert (Ea2 : getAttribute target k st2 = getAttribute target k sb).
  { apply Ha_post. intros k' cfg' Hin' [_ Heq]. by destruct (Hpost_k k' cfg' Hin'). }
  assert (Eh2 : heap st2 !! l = heap sb !! l).
  { apply Hh_post. intros k' cfg' Hin'. by destruct (Hpost_k k' cfg' Hin'). }
  simpl. rewrite !(getAttribute_document (observe _ _ st2) st2) by done.
  rewrite Ea2, Eh2. specialize (Hattr target k).
  rewrite decide_True in Hattr by done. rewrite Hk in Hattr, Hcell.
  simpl in Hattr, Hcell. rewrite Eh, Ea in Hattr. split; [exact Hattr |].
  destruct (reflect_is_true cfg).
  - rewrite Eh in Hcell. destruct Hcell as [Hc | [Hc1 Hc2]]; [by left |].
    right. by rewrite Hc1, Eh.
  - by rewrite Hcell, Eh.
Qed.

(** [makeAttributeConfigMap] builds such tables. *)
Lemma makeAttributeConfigMap_wf attributes (h : gmap nat value) n :
  makeAttributeConfigMap attributes h = Some n → table_wf (attributeConfigMap n).
Proof.
  intros Hn. split.
  - apply (normalise_from_NoDup _ _ _ Hn). apply NoDup_nil_2.
  - intros k cfg Hin.
    assert (Hg : ∃ cfg', Map_get k (attributeConfigMap n) = Some cfg') .
    { apply (Map_get_is_Some k). apply list_elem_of_fmap. by exists (k, cfg). }
    pose proof (normalise_from_NoDup _ _ _ Hn (NoDup_nil_2)) as Hnd.
    assert (Hget : Map_get k (attributeConfigMap n) = Some cfg).
    { clear -Hin Hnd. induction (attributeConfigMap n) as [| [k' c'] m IH]; simpl.
      - by apply elem_of_nil in Hin.
      - unfold Map_keys in Hnd. simpl in Hnd. apply NoDup_cons in Hnd as [Hni Hnd].
        apply elem_of_cons in Hin as [[= <- <-] | Hin].
        + by rewrite String.eqb_refl.
        + destruct (String.eqb k' k) eqn:E.
          * apply String.eqb_eq in E. subst. destruct Hni.
            apply list_elem_of_fmap. by exists (k, cfg).
          * by apply IH. }
    destruct (normalise_from_origin _ _ _ _ _ Hn Hget) as [Hnil | (d & _ & _ & _ & ->)];
      [discriminate | done].
Qed.

End MountTable.

(** ** Inbound synchronisation *)

Section Inbound.
Context {JN : JsNumber}.

Implicit Types (st : State) (el : nat) (cfg : EffectiveConfig).
Implicit Types (table : list (string * EffectiveConfig)) (r : MutationRecord).

Lemma interpretedNewValue_not_num cfg el name st :
  ∀ n, interpretedNewValue_of cfg el name st ≠ VNum n.
Proof.
  intros n. unfold interpretedNewValue_of, value_of_raw.
  repeat case_match; discriminate.
Qed.

(** One record of a bound attribute of the current target, on a binding bound
    to a cell. *)
Lemma process_record_bound table (cb : bool) el r st name cfg (l : nat) :
  record_type r = RtAttributes → record_target r = el →
  attributeName r = Some name → Map_get name table = Some cfg →
  ref cfg = RefCell l →
  ∃ st', process_record table cb el r st = Some st'
    ∧ document st' = document st ∧ targetRef st' = targetRef st
    ∧ isUpdatingDomFromRef st' = isUpdatingDomFromRef st
    ∧ timeouts st' = timeouts st ∧ observer st' = observer st
    ∧ pending st' = pending st
    ∧ calls st'
      = (if reported cb el name r st
         then calls st ++ [{| call_attributeName := name;
                              call_oldValue := oldValue r;
                              call_newValue := getAttribute el name st;
                              call_interpretedValue :=
                                interpretedNewValue_of cfg el name st |}]
         else calls st)
    ∧ (if reflect_is_true cfg
       then ref_value (heap st') (RefCell l) = interpretedNewValue_of cfg el name st
            ∧ ∀ l', l' ≠ l → heap st' !! l' = heap st !! l'
       else heap st' = heap st).
Proof.
  intros Hty Htg Hn Hg Hr. unfold process_record.
  rewrite Hty, Htg, Nat.eqb_refl, Hn, Hg. simpl.
  fold (interpretedNewValue_of cfg el name st).
  fold (reported cb el name r st).
  set (st1 := if reported cb el name r st then _ else st).
  assert (H1 : document st1 = document st ∧ targetRef st1 = targetRef st
               ∧ isUpdatingDomFromRef st1 = isUpdatingDomFromRef st
               ∧ timeouts st1 = timeouts st ∧ observer st1 = observer st
               ∧ pending st1 = pending st ∧ heap st1 = heap st).
  { unfold st1. by destruct (reported cb el name r st). }
  destruct H1 as (Hd & Ht & Hf & Hti & Ho & Hp & Hh).
  assert (Hcalls : calls st1
      = (if reported cb el name r st
         then calls st ++ [{| call_attributeName := name;
                              call_oldValue := oldValue r;
                              call_newValue := getAttribute el name st;
                              call_interpretedValue :=
                                interpretedNewValue_of cfg el name st |}]
         else calls st)).
  { unfold st1. by destruct (reported cb el name r st). }
  destruct (reflect_is_true cfg).
  - rewrite Hr.
    destruct (assign_if_different_cell l (interpretedNewValue_of cfg el name st) st1)
      as (st' & Ha & Hd' & Ht' & Hf' & Hti' & Ho' & Hp' & Hc' & _ & Hfr & _).
    exists st'. split; [exact Ha |].
    repeat split; try congruence.
    + apply (assign_if_different_exact l _ st1 st' Ha).
      apply interpretedNewValue_not_num.
    + intros l' Hne. rewrite Hfr by done. by rewrite Hh.
  - exists st1. repeat split; try done.
Qed.

(** While the marker is raised the observer reports nothing. *)
Lemma process_record_marker table (cb : bool) el r st st' :
  isUpdatingDomFromRef st = true →
  process_record table cb el r st = Some st' →
  calls st' = calls st ∧ isUpdatingDomFromRef st' = true
  ∧ pending st' = pending st ∧ timeouts st' = timeouts st.
Proof.
  intros Hf. unfold process_record. rewrite Hf. simpl.
  repeat case_match; try (by intros [= <-]);
    unfold assign_if_different; repeat case_match; simpl;
    intros; simplify_option_eq; done.
Qed.

Lemma process_records_marker table (cb : bool) el records st st' :
  isUpdatingDomFromRef st = true →
  process_records table cb el records st = Some st' →
  calls st' = calls st ∧ isUpdatingDomFromRef st' = true
  ∧ pending st' = pending st ∧ timeouts st' = timeouts st.
Proof.
  revert st. induction records as [| r rest IH]; intros st Hf; simpl.
  - by intros [= <-].
  - destruct (process_record table cb el r st) as [st1 |] eqn:E1; simpl; [| done].
    destruct (process_record_marker _ _ _ _ _ _ Hf E1) as (Hc1 & Hf1 & Hp1 & Ht1).
    intros Hrest. destruct (IH st1 Hf1 Hrest) as (Hc & Hf' & Hp & Ht).
    repeat split; congruence.
Qed.

(** The observer never touches the marker, the timers or the queue. *)
Lemma process_record_keeps table (cb : bool) el r st st' :
  process_record table cb el r st = Some st' →
  isUpdatingDomFromRef st' = isUpdatingDomFromRef st
  ∧ pending st' = pending st ∧ timeouts st' = timeouts st
  ∧ observer st' = observer st ∧ targetRef st' = targetRef st
  ∧ document st' = document st
  ∧ refToDomSyncStops st' = refToDomSyncStops st.
Proof.
  unfold process_record.
  repeat case_match; try (by intros [= <-]);
    unfold assign_if_different; repeat case_match; simpl;
    intros; simplify_option_eq; done.
Qed.

Lemma process_records_keeps table (cb : bool) el records st st' :
  process_records table cb el records st = Some st' →
  isUpdatingDomFromRef st' = isUpdatingDomFromRef st
  ∧ pending st' = pending st ∧ timeouts st' = timeouts st
  ∧ observer st' = observer st ∧ targetRef st' = targetRef st
  ∧ document st' = document st
  ∧ refToDomSyncStops st' = refToDomSyncStops st.
Proof.
  revert st. induction records as [| r rest IH]; intros st; simpl.
  - by intros [= <-].
  - destruct (process_record table cb el r st) as [st1 |] eqn:E1; simpl; [| done].
    destruct (process_record_keeps _ _ _ _ _ _ E1) as (? & ? & ? & ? & ? & ? & ?).
    intros Hrest. destruct (IH st1 Hrest) as (? & ? & ? & ? & ? & ? & ?).
    repeat split; congruence.
Qed.

End Inbound.

Lemma observerCallback_single {JN : JsNumber}
  (table : list (string * EffectiveConfig)) (cb : bool) (r : MutationRecord)
  (st : State) (el : nat) :
  targetRef st = Some el →
  observerCallback table cb [r] st = process_record table cb el r st.
Proof.
  intros Ht. unfold observerCallback. rewrite Ht. simpl.
  by destruct (process_record table cb el r st).
Qed.

(** ** Claims on the inbound path *)


(** C6. For a binding that is not Boolean-typed: the outbound
    synchronisation for the cell value [null] leaves the attribute absent; and
    with [reflect = true], the observer's processing of a record of the
    attribute, the attribute being absent, leaves the cell holding [null]. *)
Theorem C6_null_round_trip {JN : JsNumber} (cfg : EffectiveConfig) :
  type cfg = Some TString ∨ type cfg = Some TNumber →
  (∀ st el, targetRef st = Some el →
     getAttribute el (attribute cfg) (watchCallback cfg VNull st) = None)
  ∧ (∀ table (onAttributeChange : bool) st r el l,
       targetRef st = Some el →
       record_type r = RtAttributes → record_target r = el →
       attributeName r = Some (attribute cfg) →
       Map_get (attribute cfg) table = Some cfg →
       ref cfg = RefCell l → reflect cfg = Some true →
       getAttribute el (attribute cfg) st = None →
       ∃ st', observerCallback table onAttributeChange [r] st = Some st'
         ∧ ref_value (heap st') (RefCell l) = VNull).
Proof.
  intros Hty.
  assert (Hnb : type_is cfg TBoolean = false).
  { unfold type_is. by destruct Hty as [-> | ->]. }
  split.
  - intros st el Ht. rewrite (watchCallback_attribute cfg VNull st el el _ Ht).
    rewrite decide_True by done. unfold attribute_after. by rewrite Hnb.
  - intros table cb st r el l Ht Hrt Htg Hn Hg Hr Hrf Habs.
    rewrite (observerCallback_single _ _ _ _ el Ht).
    destruct (process_record_bound table cb el r st (attribute cfg) cfg l
                Hrt Htg Hn Hg Hr)
      as (st' & Hp & _ & _ & _ & _ & _ & _ & _ & Hcell).
    unfold reflect_is_true in Hcell. rewrite Hrf in Hcell.
    exists st'. split; [exact Hp |]. destruct Hcell as [-> _].
    unfold interpretedNewValue_of. by rewrite Hnb, Habs.
Qed.

(** C2 (the code's behaviour). For a Number-typed binding with
    [reflect = true], the observer assigns the cell the attribute's raw
    content as a string: the inbound path has no numeric parse. *)
Theorem C2_inbound_number_left_unparsed {JN : JsNumber}
  (table : list (string * EffectiveConfig)) (onAttributeChange : bool)
  (st : State) (r : MutationRecord) (cfg : EffectiveConfig) (name : string)
  (el l : nat) (content : string) :
  targetRef st = Some el →
  record_type r = RtAttributes → record_target r = el →
  attributeName r = Some name → Map_get name table = Some cfg →
  type cfg = Some TNumber → ref cfg = RefCell l → reflect cfg = Some true →
  getAttribute el name st = Some content →
  ∃ st', observerCallback table onAttributeChange [r] st = Some st'
    ∧ ref_value (heap st') (RefCell l) = VStr content.
Proof.
  intros Ht Hrt Htg Hn Hg Hty Hr Hrf Hc.
  rewrite (observerCallback_single _ _ _ _ el Ht).
  destruct (process_record_bound table onAttributeChange el r st name cfg l
              Hrt Htg Hn Hg Hr)
    as (st' & Hp & _ & _ & _ & _ & _ & _ & _ & Hcell).
  unfold reflect_is_true in Hcell. rewrite Hrf in Hcell.
  exists st'. split; [exact Hp |]. destruct Hcell as [-> _].
  unfold interpretedNewValue_of, type_is. by rewrite Hty, Hc.
Qed.

(** ** The concrete page, run *)

Example readme_normalised :
  makeAttributeConfigMap readme_attributes readme_cells
  = Some {| attributeConfigMap := readme_table; cells := readme_cells; warnings := [] |}.
Proof. reflexivity. Qed.

(** Attaching to an element without attributes pushes the cells' values. *)
Example readme_mounted :
  mountedCallback readme_table 7 (page ∅ readme_cells)
  = Some (attached {[ "text" := "default text"; "paragraph" := "default text" ]}
            readme_cells).
Proof. vm_compute. reflexivity. Qed.


(** The cell of [text] set to [null] removes the attribute; the attribute
    removed by a script sets the cell to [null]. *)
Lemma C6_null_round_trip_witness :
  getAttribute 7 "text"
    (watchCallback text_binding VNull
       (attached {[ "text" := "default text" ]} (<[ 2 := VNull ]> readme_cells)))
  = None
  ∧ ∃ st', observerCallback readme_table true
             [record_of "text" (Some "default text") false]
             (attached ∅ readme_cells) = Some st'
      ∧ ref_value (heap st') (RefCell 2) = VNull.
Proof.
  destruct (C6_null_round_trip (JN := IntegerNumbers) text_binding) as [Hout Hin];
    [by left |].
  split.
  - apply Hout. reflexivity.
  - apply (Hin readme_table true (attached ∅ readme_cells)
             (record_of "text" (Some "default text") false) 7 2); reflexivity.
Defined.

(** A script sets [count="42"]: the cell of the Number binding receives the
    string, where the initial synchronisation reads the same attribute as the
    number. *)
Lemma C2_inbound_number_left_unparsed_witness :
  (∃ st', observerCallback readme_table true [record_of "count" None false]
            (attached {[ "count" := "42" ]} readme_cells) = Some st'
     ∧ ref_value (heap st') (RefCell 4) = VStr "42")
  ∧ interpret_raw count_binding (Some "42") = @VNum IntegerNumbers (Some 42%Z)
  ∧ interpret_raw count_binding (Some "abc") = VNull.
Proof.
  split; [| split; reflexivity].
  apply (C2_inbound_number_left_unparsed (JN := IntegerNumbers) readme_table true
           (attached {[ "count" := "42" ]} readme_cells)
           (record_of "count" None false) count_binding "count" 7 4 "42");
    reflexivity.
Defined.

(** ** Claims on the Boolean invariant and on the initial synchronisation *)


Example readme_table_wf : table_wf readme_table.
Proof.
  split.
  - unfold Map_keys. simpl. apply (bool_decide_unpack _). by vm_compute.
  - intros k cfg Hin. repeat (apply elem_of_cons in Hin as [[= -> ->] | Hin]; [done |]).
    by apply elem_of_nil in Hin.
Qed.

Lemma readme_table_sole (k : string) (cfg : EffectiveConfig (JN := IntegerNumbers)) (l : nat) :
  (k, cfg) ∈ readme_table → ref cfg = RefCell l →
  ∀ k' cfg', (k', cfg') ∈ readme_table → ref cfg' = RefCell l → k' = k.
Proof.
  intros Hin Hr k' cfg' Hin' Hr'.
  repeat (apply elem_of_cons in Hin as [[= -> ->] | Hin];
    [repeat (apply elem_of_cons in Hin' as [[= -> ->] | Hin'];
       [simpl in *; congruence |]); by apply elem_of_nil in Hin' |]).
  by apply elem_of_nil in Hin.
Qed.


(** C1 as stated fails: with [reflect: true], the cell holding
    "default text" and the element carrying [text="NEW TEXT"] before attach,
    the initial synchronisation overwrites the attribute and leaves the cell
    holding "default text", not the reading of the element's prior state. *)
Lemma C1_counterexample :
  makeAttributeConfigMap readme_attributes readme_cells
  = Some {| attributeConfigMap := readme_table; cells := readme_cells; warnings := [] |}
  ∧ reflect text_binding = Some true
  ∧ getAttribute 7 "text" (page {[ "text" := "NEW TEXT" ]} readme_cells) = Some "NEW TEXT"
  ∧ interpret_raw text_binding (Some "NEW TEXT") = VStr "NEW TEXT"
  ∧ ∃ st', mountedCallback readme_table 7 (page {[ "text" := "NEW TEXT" ]} readme_cells)
           = Some st'
      ∧ ref_value (heap st') (RefCell 2) = VStr "default text"
      ∧ getAttribute 7 "text" st' = Some "default text"
      ∧ ref_value (heap st') (RefCell 2)
        ≠ interpret_raw text_binding
            (getAttribute 7 "text" (page {[ "text" := "NEW TEXT" ]} readme_cells)).
Proof.
  repeat split; try reflexivity.
  eexists. split; [vm_compute; reflexivity |].
  repeat split; try reflexivity. vm_compute. discriminate.
Qed.

(** C1, amended. For a binding with [reflect = true] (whose cell no other
    binding of the table shares), the initial synchronisation lets the cell's
    original value [v0] win whatever the element carried: a Boolean binding's
    attribute is present exactly when [v0] is [true] and the cell ends as that
    boolean; every other binding's attribute is absent when [v0] is [null] or
    [undefined] and holds [String(v0)] otherwise, and the cell ends as the
    reading of that state (for a Number binding: is assigned it unless already
    strictly equal to it).  In particular a string or [null] under a String
    binding, a boolean under a Boolean binding and [null] under a Number
    binding are kept. *)
Theorem C1_cell_value_wins {JN : JsNumber}
  (table : list (string * EffectiveConfig)) (target : nat) (st st' : State)
  (cfg : EffectiveConfig) (l : nat) :
  table_wf table → (attribute cfg, cfg) ∈ table → ref cfg = RefCell l →
  (∀ k' cfg', (k', cfg') ∈ table → ref cfg' = RefCell l → k' = attribute cfg) →
  reflect cfg = Some true →
  mountedCallback table target st = Some st' →
  let v0 := ref_value (heap st) (RefCell l) in
  let v1 := ref_value (heap st') (RefCell l) in
  (type cfg = Some TBoolean →
     hasAttribute target (attribute cfg) st' = strict_eq v0 (VBool true)
     ∧ v1 = VBool (strict_eq v0 (VBool true)))
  ∧ (type cfg ≠ Some TBoolean →
     getAttribute target (attribute cfg) st' = desired_dom_value v0)
  ∧ (type cfg ≠ Some TBoolean → type cfg ≠ Some TNumber →
     v1 = value_of_raw (desired_dom_value v0))
  ∧ (type cfg = Some TNumber →
     v1 = interpret_raw cfg (desired_dom_value v0)
     ∨ (v1 = v0 ∧ strict_eq v0 (interpret_raw cfg (desired_dom_value v0)) = true))
  ∧ (type cfg = Some TString → v0 = VNull ∨ (∃ s, v0 = VStr s) → v1 = v0)
  ∧ (type cfg = Some TBoolean → (∃ b, v0 = VBool b) → v1 = v0)
  ∧ (type cfg = Some TNumber → v0 = VNull → v1 = v0).
Proof.
  intros Hwf Hin Hr Hsole Hrf Hm v0 v1.
  destruct (mountedCallback_binding table target st st' (attribute cfg) cfg l
              Hwf Hin Hr Hsole Hm) as [Hattr Hcell].
  fold v0 in Hattr, Hcell. fold v1 in Hcell.
  unfold reflect_is_true in Hcell. rewrite Hrf in Hcell.
  rewrite Hattr in Hcell.
  assert (Hbool : type cfg = Some TBoolean →
            hasAttribute target (attribute cfg) st' = strict_eq v0 (VBool true)
            ∧ v1 = VBool (strict_eq v0 (VBool true))).
  { intros Hty. unfold hasAttribute. rewrite Hattr.
    unfold attribute_after, interpret_raw, type_is in *. rewrite Hty in *. simpl in *.
    destruct (strict_eq v0 (VBool true)) eqn:E; simpl in *.
    - split; [done |]. destruct Hcell as [-> | [-> Hs]]; [done |].
      by apply strict_eq_exact in Hs.
    - split; [done |]. destruct Hcell as [-> | [-> Hs]]; [done |].
      by apply strict_eq_exact in Hs. }
  assert (Hnb : type cfg ≠ Some TBoolean → type_is cfg TBoolean = false).
  { unfold type_is. destruct (type cfg) as [[] |]; done. }
  assert (Hstr : type cfg ≠ Some TBoolean → type cfg ≠ Some TNumber →
            v1 = value_of_raw (desired_dom_value v0)).
  { intros H1 H2. unfold attribute_after, interpret_raw in Hcell.
    rewrite (Hnb H1) in Hcell.
    assert (type_is cfg TNumber = false) as Hnn
      by (unfold type_is; destruct (type cfg) as [[] |]; done).
    rewrite Hnn in Hcell. destruct Hcell as [-> | [-> Hs]]; [done |].
    apply strict_eq_exact in Hs; [done |].
    intros n. unfold value_of_raw. by case_match. }
  repeat split.
  - by apply Hbool.
  - by apply Hbool.
  - intros H1. rewrite Hattr. unfold attribute_after. by rewrite (Hnb H1).
  - exact Hstr.
  - intros Hty. unfold attribute_after in Hcell. rewrite Hnb in Hcell by congruence.
    exact Hcell.
  - intros Hty Hv0. rewrite Hstr by congruence.
    destruct Hv0 as [-> | [s ->]]; reflexivity.
  - intros Hty [b Hv0]. destruct (Hbool Hty) as [_ ->]. rewrite Hv0. simpl.
    by destruct b.
  - intros Hty Hv0. unfold attribute_after in Hcell. rewrite Hnb in Hcell by congruence.
    rewrite Hv0 in *. unfold interpret_raw, type_is in Hcell. rewrite Hty in Hcell.
    simpl in Hcell. by destruct Hcell as [-> | [-> _]].
Qed.

(** The README's page with [text="NEW TEXT"] authored before attach: the
    attribute becomes "default text" and the cell keeps it. *)
Lemma C1_cell_value_wins_witness :
  ∃ st', mountedCallback readme_table 7 (page {[ "text" := "NEW TEXT" ]} readme_cells)
         = Some st'
    ∧ getAttribute 7 "text" st' = Some "default text"
    ∧ ref_value (heap st') (RefCell 2) = VStr "default text".
Proof.
  destruct (mountedCallback readme_table 7 (page {[ "text" := "NEW TEXT" ]} readme_cells))
    as [st' |] eqn:E; [| by vm_compute in E].
  exists st'. split; [reflexivity |].
  destruct (C1_cell_value_wins (JN := IntegerNumbers) readme_table 7
              (page {[ "text" := "NEW TEXT" ]} readme_cells) st' text_binding 2)
    as (_ & Hattr & _ & _ & Hkeep & _);
    [exact readme_table_wf | | reflexivity | | reflexivity | exact E |].
  - apply elem_of_cons. right. apply elem_of_cons. right. apply elem_of_cons. by left.
  - apply (readme_table_sole "text" text_binding 2); [| reflexivity].
    apply elem_of_cons. right. apply elem_of_cons. right. apply elem_of_cons. by left.
  - split.
    + apply Hattr. discriminate.
    + apply Hkeep; [reflexivity |]. right. by exists "default text".
Defined.

(** ** The marker and the host's scheduling *)

Section Marker.
Context {JN : JsNumber}.

Implicit Types (st : State) (el : nat) (cfg : EffectiveConfig).
Implicit Types (table : list (string * EffectiveConfig)).

Lemma external_write_pending (el : nat) (name : string) (old : option string) st r :
  r ∈ pending (queue_record false el name old st) →
  r ∈ pending st ∨ by_engine r = false.
Proof.
  destruct (queue_record_pending false el name old st) as [-> | ->]; [by left |].
  intros [Hin | ->%list_elem_of_singleton]%elem_of_app; [by left | by right].
Qed.

Lemma step_marker_invariant table (cb : bool) (ev : Event) st st' :
  marker_invariant st → step table cb ev st = Some st' → marker_invariant st'.
Proof.
  intros Hinv. destruct ev as [l v | name | el name content | el name | t | |]; cbn [step].
  - intros [= <-]. exact Hinv.
  - destruct (string_in name (refToDomSyncStops st)); [| done].
    destruct (Map_get name table) as [cfg |]; [| done].
    destruct (ref cfg) as [l | v]; [| done].
    intros [= <-].
    match goal with |- marker_invariant (watchCallback cfg ?v st) =>
      destruct (watchCallback_marker cfg v st) as [-> | (Hf & _ & _)] end;
      [exact Hinv |].
    intros r _ _. exact Hf.
  - intros [= <-]. intros r Hin Hr. unfold setAttribute in *.
    match goal with |- context [queue_record ?e ?x ?n ?o ?s] =>
      destruct (queue_record_fields e x n o s) as (_ & _ & _ & Hf & _) end.
    rewrite Hf. simpl.
    apply external_write_pending in Hin as [Hin | Hb]; [| congruence].
    by apply (Hinv r).
  - intros [= <-]. intros r Hin Hr. unfold removeAttribute in *.
    destruct (getAttribute el name st); [| by apply (Hinv r)].
    match goal with |- context [queue_record ?e ?x ?n ?o ?s] =>
      destruct (queue_record_fields e x n o s) as (_ & _ & _ & Hf & _) end.
    rewrite Hf. simpl.
    apply external_write_pending in Hin as [Hin | Hb]; [| congruence].
    by apply (Hinv r).
  - intros [= <-]. exact Hinv.
  - destruct (pending st) as [| r0 rs] eqn:Ep.
    + intros [= <-]. exact Hinv.
    + unfold observerCallback.
      change (targetRef (with_pending [] st)) with (targetRef st).
      destruct (targetRef st) as [el |].
      * intros Hp. apply process_records_keeps in Hp as (_ & Hp & _).
        simpl in Hp. intros r Hin. rewrite Hp in Hin. by apply elem_of_nil in Hin.
      * intros [= <-]. intros r Hin. by apply elem_of_nil in Hin.
  - destruct (timeouts st) as [| n]; [done |].
    destruct (pending st) as [| r0 rs] eqn:Ep; [| done].
    intros [= <-]. intros r Hin. simpl in Hin. rewrite Ep in Hin.
    by apply elem_of_nil in Hin.
Qed.

Lemma run_marker_invariant table (cb : bool) (evs : list Event) st st' :
  marker_invariant st → run table cb evs st = Some st' → marker_invariant st'.
Proof.
  revert st. induction evs as [| ev rest IH]; intros st Hinv; simpl.
  - by intros [= <-].
  - destruct (step table cb ev st) as [st1 |] eqn:E1; simpl; [| done].
    apply IH. by apply (step_marker_invariant table cb ev st).
Qed.

(** A delivery that carries a record of the engine's own write reports
    nothing to [onAttributeChange]. *)
Lemma deliver_engine_record_unreported table (cb : bool) st st' r :
  marker_invariant st → r ∈ pending st → by_engine r = true →
  step table cb Deliver st = Some st' → calls st' = calls st.
Proof.
  intros Hinv Hin Hr. specialize (Hinv r Hin Hr). cbn [step].
  destruct (pending st) as [| r0 rs] eqn:Ep; [by intros [= <-] |].
  unfold observerCallback.
  change (targetRef (with_pending [] st)) with (targetRef st).
  destruct (targetRef st) as [el |]; [| by intros [= <-]].
  intros Hp. by apply process_records_marker in Hp as (-> & _).
Qed.

Lemma run_cons table (cb : bool) (ev : Event) (rest : list Event) st :
  run table cb (ev :: rest) st = st' ← step table cb ev st; run table cb rest st'.
Proof. reflexivity. Qed.

Lemma step_RunWatcher_cell table (cb : bool) (name : string) cfg (l : nat) st :
  string_in name (refToDomSyncStops st) = true →
  Map_get name table = Some cfg → ref cfg = RefCell l →
  step table cb (RunWatcher name) st
  = Some (watchCallback cfg (ref_value (heap st) (RefCell l)) st).
Proof. intros Hs Hg Hr. cbn [step]. by rewrite Hs, Hg, Hr. Qed.

(** The engine starts with the invariant: nothing is queued before
    [observe]. *)
Lemma mountedCallback_marker_invariant table (target : nat) st st' :
  observer st = None → pending st = [] →
  mountedCallback table target st = Some st' → marker_invariant st'.
Proof.
  intros Ho Hp. unfold mountedCallback.
  destruct (mount_all target table st) as [st1 |] eqn:E; simpl; [| done].
  intros [= <-]. intros r Hin.
  destruct (mount_all_frame _ _ _ _ E) as (_ & _ & _ & _ & _ & _ & _ & Hpending).
  simpl in Hin. rewrite (Hpending Ho), Hp in Hin. by apply elem_of_nil in Hin.
Qed.

End Marker.

(** ** Claims on feedback *)

(** No feedback to the callback. From an engine attached with nothing
    queued, after any sequence of cell writes, watcher runs, external
    attribute writes, deliveries and timers the host can schedule, a delivery
    that carries a record queued by the engine's own write invokes
    [onAttributeChange] for no record. *)
Theorem own_write_never_reported {JN : JsNumber}
  (table : list (string * EffectiveConfig)) (onAttributeChange : bool)
  (target : nat) (st0 st1 st st' : State) (evs : list Event) (r : MutationRecord) :
  observer st0 = None → pending st0 = [] →
  mountedCallback table target st0 = Some st1 →
  run table onAttributeChange evs st1 = Some st →
  r ∈ pending st → by_engine r = true →
  step table onAttributeChange Deliver st = Some st' →
  calls st' = calls st.
Proof.
  intros Ho Hp Hm Hrun Hin Hr Hd.
  apply (deliver_engine_record_unreported table onAttributeChange st st' r
           (run_marker_invariant table onAttributeChange evs st1 st
              (mountedCallback_marker_invariant table target st0 st1 Ho Hp Hm) Hrun)
           Hin Hr Hd).
Qed.

(** The cell of [disabled] set to [true] on the README's page: the watcher
    adds the attribute, and the delivery of that record calls nothing. *)
Lemma own_write_never_reported_witness :
  ∃ st st', run readme_table true [CellWrite 0 (VBool true); RunWatcher "disabled"]
              (attached {[ "text" := "default text"; "paragraph" := "default text" ]}
                 readme_cells) = Some st
    ∧ pending st = [record_of "disabled" None true]
    ∧ step readme_table true Deliver st = Some st'
    ∧ calls st' = calls st.
Proof.
  set (st := {| targetRef := Some 7;
                document := {[ 7 := {[ "disabled" := ""; "text" := "default text";
                                       "paragraph" := "default text" ]} ]};
                heap := <[ 0 := VBool true ]> readme_cells;
                isUpdatingDomFromRef := true; timeouts := 1;
                observer := Some (7, Map_keys readme_table);
                pending := [record_of "disabled" None true]; calls := [];
                refToDomSyncStops := Map_keys readme_table |}
              : State (JN := IntegerNumbers)).
  assert (Hrun : run readme_table true [CellWrite 0 (VBool true); RunWatcher "disabled"]
                   (attached {[ "text" := "default text"; "paragraph" := "default text" ]}
                      readme_cells) = Some st)
    by (vm_compute; reflexivity).
  assert (Hd : step readme_table true Deliver st = Some (with_pending [] st))
    by (vm_compute; reflexivity).
  exists st, (with_pending [] st).
  split; [exact Hrun |]. split; [reflexivity |]. split; [exact Hd |].
  apply (own_write_never_reported (JN := IntegerNumbers) readme_table true 7
           (page ∅ readme_cells)
           (attached {[ "text" := "default text"; "paragraph" := "default text" ]}
              readme_cells)
           st (with_pending [] st) [CellWrite 0 (VBool true); RunWatcher "disabled"]
           (record_of "disabled" None true));
    [reflexivity | reflexivity | exact readme_mounted | exact Hrun | | reflexivity
    | exact Hd].
  apply elem_of_cons. by left.
Defined.

(** C3 (the code's behaviour). A number written to the cell of a Number
    binding with [reflect = true], the element not yet showing it: the watcher
    writes the attribute, the observer receives the record while the marker is
    raised and reports nothing, and then assigns the cell the attribute's
    content, a string, in place of the number just written. *)
Theorem C3_own_write_reassigns_number_cell {JN : JsNumber}
  (table : list (string * EffectiveConfig)) (onAttributeChange : bool)
  (st : State) (cfg : EffectiveConfig) (name : string) (el l : nat) (n : num)
  (attributeFilter : list string) :
  Map_get name table = Some cfg → attribute cfg = name →
  type cfg = Some TNumber → reflect cfg = Some true → ref cfg = RefCell l →
  targetRef st = Some el → observer st = Some (el, attributeFilter) →
  string_in name attributeFilter = true →
  string_in name (refToDomSyncStops st) = true →
  pending st = [] →
  getAttribute el name st ≠ Some (num_to_string n) →
  ∃ st', run table onAttributeChange
           [CellWrite l (VNum n); RunWatcher name; Deliver] st = Some st'
    ∧ getAttribute el name st' = Some (num_to_string n)
    ∧ calls st' = calls st
    ∧ ref_value (heap st') (RefCell l) = VStr (num_to_string n).
Proof.
  intros Hg Ha Hty Hrf Hr Ht Ho Hfilter Hstops Hp Hdiff.
  set (st1 := with_heap (<[l := VNum n]> (heap st)) st).
  set (st2 := watchCallback cfg (VNum n) st1).
  assert (Hrun2 : run table onAttributeChange
                    [CellWrite l (VNum n); RunWatcher name; Deliver] st
                  = step table onAttributeChange Deliver st2).
  { rewrite run_cons.
    change (step table onAttributeChange (CellWrite l (VNum n)) st) with (Some st1).
    cbn [mbind option_bind]. rewrite run_cons.
    rewrite (step_RunWatcher_cell table onAttributeChange name cfg l st1 Hstops Hg Hr).
    cbn [mbind option_bind].
    replace (ref_value (heap st1) (RefCell l)) with (VNum n)
      by (unfold st1; simpl; by rewrite lookup_insert_eq).
    fold st2. rewrite run_cons.
    by destruct (step table onAttributeChange Deliver st2). }
  assert (Hnb : type_is cfg TBoolean = false) by (unfold type_is; by rewrite Hty).
  assert (Hdes : desired_dom_value (VNum n) = Some (num_to_string n)) by done.
  assert (Hd1 : raw_differs (getAttribute el name st1) (Some (num_to_string n)) = true).
  { destruct (raw_differs _ _) eqn:E; [done |]. by apply raw_differs_false in E. }
  assert (Hst2 : st2 = schedule_clear (setAttribute true el name (num_to_string n)
                                         (with_flag true st1))).
  { unfold st2, watchCallback.
    change (targetRef st1) with (targetRef st). rewrite Ht, Hnb, Ha, Hdes, Hd1. done. }
  assert (Hpend : pending st2
            = [{| record_type := RtAttributes; record_target := el;
                  attributeName := Some name;
                  oldValue := getAttribute el name st; by_engine := true |}]).
  { rewrite Hst2. unfold schedule_clear, setAttribute, queue_record.
    cbn [pending with_timeouts observer with_document with_flag with_heap st1].
    rewrite Ho, Nat.eqb_refl, Hfilter. cbn [andb pending with_pending with_document
      with_flag with_heap]. by rewrite Hp. }
  assert (Hflag : isUpdatingDomFromRef st2 = true).
  { rewrite Hst2.
    destruct (setAttribute_fields true el name (num_to_string n) (with_flag true st1))
      as (_ & _ & Hf & _).
    cbn [schedule_clear isUpdatingDomFromRef with_timeouts]. by rewrite Hf. }
  assert (Htg2 : targetRef st2 = Some el).
  { unfold st2. destruct (watchCallback_fields cfg (VNum n) st1) as (-> & _). exact Ht. }
  assert (Hheap2 : heap st2 = <[l := VNum n]> (heap st)).
  { unfold st2. by destruct (watchCallback_fields cfg (VNum n) st1) as (_ & -> & _). }
  assert (Hcalls2 : calls st2 = calls st).
  { unfold st2. by destruct (watchCallback_fields cfg (VNum n) st1) as (_ & _ & -> & _). }
  assert (Hattr2 : getAttribute el name st2 = Some (num_to_string n)).
  { unfold st2. rewrite (watchCallback_attribute cfg (VNum n) st1 el el name Ht).
    rewrite decide_True by done. unfold attribute_after. by rewrite Hnb. }
  rewrite Hrun2. cbn [step]. rewrite Hpend.
  set (r := {| record_type := RtAttributes; record_target := el;
               attributeName := Some name; oldValue := getAttribute el name st;
               by_engine := true |}).
  rewrite (observerCallback_single table onAttributeChange r (with_pending [] st2) el Htg2).
  destruct (process_record_bound table onAttributeChange el r (with_pending [] st2)
              name cfg l eq_refl eq_refl eq_refl Hg Hr)
    as (st' & Hrun & Hdoc & _ & _ & _ & _ & _ & Hcalls & Hcell).
  exists st'. split; [exact Hrun |].
  unfold reflect_is_true in Hcell. rewrite Hrf in Hcell. destruct Hcell as [Hcell _].
  split; [| split].
  - rewrite (getAttribute_document st' (with_pending [] st2)) by done. exact Hattr2.
  - rewrite Hcalls. unfold reported.
    change (isUpdatingDomFromRef (with_pending [] st2)) with (isUpdatingDomFromRef st2).
    rewrite Hflag. exact Hcalls2.
  - rewrite Hcell. unfold interpretedNewValue_of. rewrite Hnb.
    change (getAttribute el name (with_pending [] st2)) with (getAttribute el name st2).
    by rewrite Hattr2.
Qed.

(** The cell of [count] set to 42 on the attached page ends holding the
    string "42", with no call of [onAttributeChange]. *)
Lemma C3_own_write_reassigns_number_cell_witness :
  ∃ st', run readme_table true
           [CellWrite 4 (@VNum IntegerNumbers (Some 42%Z)); RunWatcher "count"; Deliver]
           (attached ∅ readme_cells) = Some st'
    ∧ getAttribute 7 "count" st' = Some "42"
    ∧ calls st' = []
    ∧ ref_value (heap st') (RefCell 4) = VStr "42".
Proof.
  apply (C3_own_write_reassigns_number_cell (JN := IntegerNumbers) readme_table true
           (attached ∅ readme_cells) count_binding "count" 7 4 (Some 42%Z)
           (Map_keys readme_table)); try reflexivity.
  discriminate.
Defined.

(** * Further properties of the code *)

(** ** Registration: the empty table, the order of the keys, the coerced cells *)

Section Registration.
Context {JN : JsNumber}.

Implicit Types (config : option AttributeRefConfig) (c d : AttributeRefConfig).
Implicit Types (acc n : Normalised) (h : gmap nat value).

Lemma filter_valid_nil_iff (attributes : list (option AttributeRefConfig)) :
  List.filter config_valid attributes = []
  ↔ ∀ config, config ∈ attributes → config_valid config = false.
Proof.
  induction attributes as [| x xs IH]; simpl.
  - split; [intros _ config Hin; by apply elem_of_nil in Hin | done].
  - destruct (config_valid x) eqn:E.
    + split; [done |]. intros Hall. specialize (Hall x). rewrite E in Hall.
      discriminate Hall. apply elem_of_cons. by left.
    + rewrite IH. split.
      * intros Hall config [-> | Hin]%elem_of_cons; [done | by apply Hall].
      * intros Hall config Hin. apply Hall. apply elem_of_cons. by right.
Qed.

Lemma filter_invalid_all (attributes : list (option AttributeRefConfig)) :
  (∀ config, config ∈ attributes → config_valid config = false) →
  List.filter (λ config, negb (config_valid config)) attributes = attributes.
Proof.
  induction attributes as [| x xs IH]; simpl; [done |].
  intros Hall. rewrite (Hall x) by (apply elem_of_cons; by left). simpl.
  rewrite IH; [done |]. intros config Hin. apply Hall. apply elem_of_cons. by right.
Qed.

(** The keys after one [set]. *)
Lemma Map_keys_Map_set {V} (k : string) (v : V) (m : list (string * V)) :
  Map_keys (Map_set k v m)
  = if string_in k (Map_keys m) then Map_keys m else Map_keys m ++ [k].
Proof.
  unfold Map_keys, string_in. induction m as [| [k' v'] m IH]; simpl; [done |].
  rewrite (String.eqb_sym k k').
  destruct (String.eqb k' k) eqn:E; simpl.
  - apply String.eqb_eq in E. by subst.
  - change (list_fmap (string * V)%type string fst ?l) with (l.*1) in *.
    rewrite IH. by destruct (existsb (String.eqb k) m.*1).
Qed.

Lemma filter_twice {A} (f g : A → bool) (l : list A) :
  List.filter f (List.filter g l) = List.filter (λ y, g y && f y) l.
Proof.
  induction l as [| x l IH]; simpl; [done |].
  destruct (g x); simpl; [| done]. destruct (f x); by rewrite IH.
Qed.

Lemma string_in_app (y : string) (l1 l2 : list string) :
  string_in y (l1 ++ l2) = string_in y l1 || string_in y l2.
Proof. unfold string_in. apply existsb_app. Qed.

Lemma add_names_first_occurrences (names ks : list string) :
  foldl add_name ks names
  = ks ++ List.filter (λ y, negb (string_in y ks)) (first_occurrences names).
Proof.
  revert ks. induction names as [| x rest IH]; intros ks; simpl.
  - by rewrite app_nil_r.
  - rewrite IH. unfold add_name. destruct (string_in x ks) eqn:E; simpl.
    + f_equal. rewrite filter_twice. apply List.filter_ext. intros y.
      destruct (String.eqb x y) eqn:Exy; simpl; [| done].
      apply String.eqb_eq in Exy. subst. by rewrite E.
    + rewrite <- app_assoc. simpl. f_equal. f_equal.
      rewrite filter_twice. apply List.filter_ext. intros y.
      rewrite string_in_app. simpl. rewrite orb_false_r, negb_orb.
      rewrite (String.eqb_sym y x). apply andb_comm.
Qed.

Lemma normalise_from_keys attributes acc n :
  normalise_from attributes acc = Some n →
  Map_keys (attributeConfigMap n)
  = foldl add_name (Map_keys (attributeConfigMap acc)) (accepted_names attributes).
Proof.
  revert acc. induction attributes as [| config rest IH]; intros acc.
  - by intros [= <-].
  - rewrite normalise_from_cons.
    destruct (normalise_one config acc) as [acc' |] eqn:E1; [| done].
    cbn [mbind option_bind]. intros Hn. rewrite (IH acc' Hn).
    unfold accepted_names. cbn [omap list_omap]. unfold accepted_name at 2.
    destruct (config_valid config) eqn:Ev.
    + destruct config as [c |]; [| done].
      destruct (normalise_one_valid c acc Ev) as (a & h' & Ha & _ & _ & _ & E2).
      rewrite E1 in E2. injection E2 as ->.
      cbn [mbind option_bind]. rewrite Ha. cbn [foldl attributeConfigMap].
      by rewrite Map_keys_Map_set.
    + rewrite normalise_one_invalid in E1 by done. by injection E1 as <-.
Qed.

End Registration.

(** X2. [useReflectAttribute] registers no hook exactly when no declaration
    is accepted (an absent or empty list included); it has then written no
    cell and warned about every declaration of the list. *)
Theorem useReflectAttribute_inert_iff {JN : JsNumber}
  (options : IUseReflectAttributeOptions) (h : gmap nat value) :
  ∃ n o, useReflectAttribute options h = Some (n, o)
    ∧ (o = None
       ↔ ∀ config, config ∈ default [] (attributes options) →
           config_valid config = false)
    ∧ (o = None →
       attributeConfigMap n = [] ∧ cells n = h
       ∧ warnings n = default [] (attributes options))
    ∧ (∀ hooks, o = Some hooks →
       hooks_table hooks = attributeConfigMap n
       ∧ hooks_onAttributeChange hooks = onAttributeChange options
       ∧ hooks_tick hooks = tick options).
Proof.
  unfold useReflectAttribute.
  set (l := default [] (attributes options)).
  destruct (makeAttributeConfigMap l h) as [n |] eqn:Hn;
    [| by destruct (normalise_from_total l
             {| attributeConfigMap := []; cells := h; warnings := [] |}) as [? ?];
       unfold makeAttributeConfigMap in Hn; congruence].
  cbn [mbind option_bind].
  assert (Hempty : attributeConfigMap n = []
                   ↔ ∀ config, config ∈ l → config_valid config = false).
  { split.
    - intros Ht config Hin. destruct (config_valid config) eqn:Ev; [| done].
      destruct config as [d |]; [| done].
      destruct (normalise_from_keys_valid _ _ _ _ Hn Hin Ev) as (a & _ & Hk).
      rewrite Ht in Hk. by apply elem_of_nil in Hk.
    - intros Hall. apply filter_valid_nil_iff in Hall.
      pose proof (normalise_from_filter l
                    {| attributeConfigMap := []; cells := h; warnings := [] |}) as Hf.
      rewrite Hall in Hf. unfold makeAttributeConfigMap in Hn. rewrite Hn in Hf.
      simpl in Hf. by injection Hf as <- _. }
  destruct (attributeConfigMap n) as [| e m] eqn:Et; simpl.
  - eexists _, _. split; [reflexivity |]. split; [| split].
    + split; [intros _; by apply Hempty | done].
    + intros _. assert (Hall := proj1 Hempty eq_refl).
      split; [done |].
      pose proof (normalise_from_filter l
                    {| attributeConfigMap := []; cells := h; warnings := [] |}) as Hf.
      rewrite (proj2 (filter_valid_nil_iff l) Hall) in Hf.
      unfold makeAttributeConfigMap in Hn. rewrite Hn in Hf. simpl in Hf.
      injection Hf as _ Hc. split; [done |].
      rewrite (normalise_from_warnings _ _ _ Hn). simpl.
      by apply filter_invalid_all.
    + by intros hooks.
  - eexists _, _. split; [reflexivity |]. split; [| split].
    + split; [done |]. intros Hall. by apply Hempty in Hall.
    + done.
    + intros hooks [= <-]. simpl. by rewrite Et.
Qed.

(** X3. The keys of the table (the order of the initial synchronisation and
    the observer's [attributeFilter]) are the names of the accepted
    declarations, each once, in the order of their first occurrence. *)
Theorem registration_order {JN : JsNumber}
  (attributes : list (option AttributeRefConfig)) (h : gmap nat value) :
  ∃ n, makeAttributeConfigMap attributes h = Some n
    ∧ Map_keys (attributeConfigMap n) = first_occurrences (accepted_names attributes).
Proof.
  destruct (normalise_from_total attributes
              {| attributeConfigMap := []; cells := h; warnings := [] |}) as [n Hn].
  exists n. split; [exact Hn |].
  rewrite (normalise_from_keys _ _ _ Hn). simpl.
  rewrite add_names_first_occurrences. simpl.
  induction (first_occurrences (accepted_names attributes)) as [| x l IH];
    simpl; [done | by rewrite IH].
Qed.

Section Coercion.
Context {JN : JsNumber}.

Implicit Types (config : option AttributeRefConfig) (c d : AttributeRefConfig).
Implicit Types (acc n : Normalised) (h : gmap nat value) (e cfg : EffectiveConfig).

Lemma ref_value_insert_eq h (l : nat) (v : value) :
  ref_value (<[l := v]> h) (RefCell l) = v.
Proof. simpl. by rewrite lookup_insert_eq. Qed.

Lemma ref_value_insert_ne h (l : nat) (v : value) (r : RefField) :
  r ≠ RefCell l → ref_value (<[l := v]> h) r = ref_value h r.
Proof.
  destruct r as [l' | p]; simpl; [| done].
  intros Hne. rewrite lookup_insert_ne; [done | congruence].
Qed.

(** The coercion leaves the binding's own cell settled. *)
Lemma coerce_cell_settles e h h' :
  coerce_cell e h = Some h' → settled e (ref_value h' (ref e)) = true.
Proof.
  unfold coerce_cell, settled.
  destruct (ref e) as [l | p] eqn:Er; simpl.
  - set (v := default VUndefined (h !! l)).
    destruct (type_is e TBoolean), (type_is e TNumber), (needs_coercion v) eqn:En;
      simpl; intros [= <-]; rewrite ?lookup_insert_eq; simpl; fold v; rewrite ?En;
      try done;
      by destruct (num_isNaN (js_Number v)) eqn:Enan; simpl; rewrite ?Enan.
  - rewrite !andb_false_r. intros [= <-]. by repeat case_match.
Qed.

(** And it keeps every other binding's cell settled. *)
Lemma coerce_cell_keeps_settled e cfg h h' :
  coerce_cell e h = Some h' →
  settled cfg (ref_value h (ref cfg)) = true →
  settled cfg (ref_value h' (ref cfg)) = true.
Proof.
  unfold coerce_cell.
  destruct (ref e) as [l | p] eqn:Er; simpl;
    [| rewrite !andb_false_r; by intros [= <-]].
  set (v := default VUndefined (h !! l)).
  assert (Hcases : ref cfg = RefCell l ∨ ref cfg ≠ RefCell l).
  { destruct (ref cfg) as [l' | p']; [| by right].
    destruct (decide (l' = l)) as [-> | Hne]; [by left | right; congruence]. }
  destruct Hcases as [Hsame | Hother].
  - rewrite Hsame. simpl. fold v. intros Hc Hs.
    destruct (type_is e TBoolean && needs_coercion v) eqn:E1.
    + injection Hc as <-. rewrite lookup_insert_eq. simpl.
      unfold settled. by repeat case_match.
    + destruct (type_is e TNumber && needs_coercion v) eqn:E2; [| by simplify_eq].
      injection Hc as <-. rewrite lookup_insert_eq. simpl.
      apply andb_true_iff in E2 as [_ En].
      unfold settled in *. rewrite En in Hs. simpl in Hs.
      destruct (type_is cfg TBoolean); [done |].
      destruct (type_is cfg TNumber); [| done].
      destruct v as [| | b | x | s]; try done. simpl in *.
      apply negb_true_iff in Hs. by rewrite Hs, Hs.
  - intros Hc Hs.
    assert (Hv : ref_value h' (ref cfg) = ref_value h (ref cfg)).
    { destruct (type_is e TBoolean && needs_coercion v).
      - injection Hc as <-. by apply ref_value_insert_ne.
      - destruct (type_is e TNumber && needs_coercion v); simplify_eq; [| done].
        by apply ref_value_insert_ne. }
    by rewrite Hv.
Qed.

(** On a settled cell the coercion writes nothing new. *)
Lemma coerce_cell_settled_id e h :
  settled e (ref_value h (ref e)) = true → coerce_cell e h = Some h.
Proof.
  unfold coerce_cell, settled.
  destruct (type_is e TBoolean) eqn:Eb; simpl.
  - intros Hs. apply negb_true_iff in Hs. rewrite Hs. simpl.
    by destruct (type_is e TNumber).
  - destruct (type_is e TNumber) eqn:En; simpl; [| done].
    destruct (needs_coercion (ref_value h (ref e))) eqn:Enc; simpl; [| done].
    destruct (ref e) as [l | p]; simpl in *; [| done].
    destruct (h !! l) as [v |] eqn:El; simpl in *; [| done].
    destruct v as [| | b | x | s]; try done. simpl.
    intros Hs. apply negb_true_iff in Hs. rewrite Hs.
    by rewrite insert_id.
Qed.

(** The effective configurations of the accepted declarations. *)
Lemma normalise_from_settles attributes acc n (D : list EffectiveConfig) :
  normalise_from attributes acc = Some n →
  (∀ cfg, cfg ∈ D → settled cfg (ref_value (cells acc) (ref cfg)) = true) →
  (∀ cfg, cfg ∈ D → settled cfg (ref_value (cells n) (ref cfg)) = true)
  ∧ (∀ d a, Some d ∈ attributes → config_valid (Some d) = true →
       raw_attribute d = Some a →
       settled (effectiveConfig_of d a)
         (ref_value (cells n) (ref (effectiveConfig_of d a))) = true).
Proof.
  revert acc D. induction attributes as [| config rest IH]; intros acc D.
  - intros [= <-] HD. split; [done |]. intros d a Hin. by apply elem_of_nil in Hin.
  - rewrite normalise_from_cons.
    destruct (normalise_one config acc) as [acc' |] eqn:E1; [| done].
    cbn [mbind option_bind]. intros Hn HD.
    destruct (config_valid config) eqn:Ev.
    + destruct config as [c |]; [| done].
      destruct (normalise_one_valid c acc Ev) as (a & h' & Ha & _ & _ & Hc & E2).
      rewrite E1 in E2. injection E2 as ->.
      destruct (IH _ (effectiveConfig_of c a :: D) Hn) as [HD' Hrest].
      { intros cfg [-> | Hin]%elem_of_cons; simpl.
        - by apply (coerce_cell_settles _ _ _ Hc).
        - apply (coerce_cell_keeps_settled _ _ _ _ Hc). by apply HD. }
      split.
      * intros cfg Hin. apply HD'. apply elem_of_cons. by right.
      * intros d a' [[= <-] | Hin]%elem_of_cons Hv Ha'; [| by apply Hrest].
        rewrite Ha in Ha'. injection Ha' as <-.
        apply HD'. apply elem_of_cons. by left.
    + rewrite normalise_one_invalid in E1 by done. injection E1 as <-.
      destruct (IH _ D Hn HD) as [HD' Hrest].
      split; [done |].
      intros d a [[= <-] | Hin]%elem_of_cons Hv Ha; [congruence | by apply Hrest].
Qed.

(** With every accepted declaration's cell settled, the normalisation leaves
    the cells alone. *)
Lemma normalise_from_settled_cells attributes acc n :
  normalise_from attributes acc = Some n →
  (∀ d a, Some d ∈ attributes → config_valid (Some d) = true →
     raw_attribute d = Some a →
     settled (effectiveConfig_of d a)
       (ref_value (cells acc) (ref (effectiveConfig_of d a))) = true) →
  cells n = cells acc.
Proof.
  revert acc. induction attributes as [| config rest IH]; intros acc.
  - by intros [= <-].
  - rewrite normalise_from_cons.
    destruct (normalise_one config acc) as [acc' |] eqn:E1; [| done].
    cbn [mbind option_bind]. intros Hn Hs.
    destruct (config_valid config) eqn:Ev.
    + destruct config as [c |]; [| done].
      destruct (normalise_one_valid c acc Ev) as (a & h' & Ha & _ & _ & Hc & E2).
      rewrite E1 in E2. injection E2 as ->.
      rewrite coerce_cell_settled_id in Hc
        by (apply (Hs c a); [apply elem_of_cons; by left | done | done]).
      injection Hc as <-.
      rewrite (IH _ Hn); [done |]. simpl.
      intros d a' Hin. apply Hs. apply elem_of_cons. by right.
    + rewrite normalise_one_invalid in E1 by done. injection E1 as <-.
      rewrite (IH _ Hn); [done |]. simpl.
      intros d a' Hin. apply Hs. apply elem_of_cons. by right.
Qed.

(** The table does not depend on the cells. *)
Lemma normalise_from_table attributes acc1 acc2 n1 n2 :
  normalise_from attributes acc1 = Some n1 →
  normalise_from attributes acc2 = Some n2 →
  attributeConfigMap acc1 = attributeConfigMap acc2 →
  attributeConfigMap n1 = attributeConfigMap n2.
Proof.
  revert acc1 acc2. induction attributes as [| config rest IH]; intros acc1 acc2.
  - by intros [= <-] [= <-].
  - rewrite !normalise_from_cons.
    destruct (normalise_one config acc1) as [a1 |] eqn:E1; [| done].
    destruct (normalise_one config acc2) as [a2 |] eqn:E2; [| done].
    cbn [mbind option_bind]. intros H1 H2 Ht. apply (IH a1 a2 H1 H2).
    destruct (config_valid config) eqn:Ev.
    + destruct config as [c |]; [| done].
      destruct (normalise_one_valid c acc1 Ev) as (a & h1 & Ha & _ & _ & _ & E1').
      destruct (normalise_one_valid c acc2 Ev) as (a' & h2 & Ha' & _ & _ & _ & E2').
      rewrite E1 in E1'. rewrite E2 in E2'. injection E1' as ->. injection E2' as ->.
      rewrite Ha in Ha'. injection Ha' as <-. simpl. by rewrite Ht.
    + rewrite normalise_one_invalid in E1, E2 by done.
      injection E1 as <-. injection E2 as <-. done.
Qed.

End Coercion.

(** X4. After [makeAttributeConfigMap], the cell of every binding of the
    table is settled for it: under a Boolean binding it holds a boolean,
    [null] or [undefined]; under a Number binding one of these or a number
    that is not NaN. *)
Theorem registered_cells_settled {JN : JsNumber}
  (attributes : list (option AttributeRefConfig)) (h : gmap nat value) :
  ∃ n, makeAttributeConfigMap attributes h = Some n
    ∧ ∀ name cfg, Map_get name (attributeConfigMap n) = Some cfg →
        settled cfg (ref_value (cells n) (ref cfg)) = true.
Proof.
  destruct (normalise_from_total attributes
              {| attributeConfigMap := []; cells := h; warnings := [] |}) as [n Hn].
  exists n. split; [exact Hn |]. intros name cfg Hg.
  destruct (normalise_from_origin _ _ _ _ _ Hn Hg) as [Hnil | (d & Hin & Hv & Ha & ->)];
    [discriminate |].
  destruct (normalise_from_settles attributes _ n [] Hn) as [_ Hs].
  - intros cfg Hc. by apply elem_of_nil in Hc.
  - by apply (Hs d name).
Qed.

(** X5. [makeAttributeConfigMap] is idempotent: run again on the cells it
    left, it builds the same table, logs the same warnings and changes no
    cell. *)
Theorem makeAttributeConfigMap_idempotent {JN : JsNumber}
  (attributes : list (option AttributeRefConfig)) (h : gmap nat value) :
  ∃ n, makeAttributeConfigMap attributes h = Some n
    ∧ makeAttributeConfigMap attributes (cells n) = Some n.
Proof.
  unfold makeAttributeConfigMap.
  destruct (normalise_from_total attributes
              {| attributeConfigMap := []; cells := h; warnings := [] |}) as [n Hn].
  exists n. split; [exact Hn |].
  destruct (normalise_from_total attributes
              {| attributeConfigMap := []; cells := cells n; warnings := [] |})
    as [n' Hn'].
  rewrite Hn'. f_equal.
  destruct (normalise_from_settles attributes _ n [] Hn) as [_ Hs].
  { intros cfg Hc. by apply elem_of_nil in Hc. }
  pose proof (normalise_from_settled_cells attributes _ n' Hn' Hs) as Hc.
  pose proof (normalise_from_table attributes _ _ n' n Hn' Hn eq_refl) as Ht.
  pose proof (normalise_from_warnings _ _ _ Hn) as Hw.
  pose proof (normalise_from_warnings _ _ _ Hn') as Hw'.
  destruct n as [t c w], n' as [t' c' w']. simpl in *. congruence.
Qed.

(** ** The watcher and the observer *)

Section Settling.
Context {JN : JsNumber}.

Implicit Types (st : State) (el : nat) (cfg : EffectiveConfig).
Implicit Types (table : list (string * EffectiveConfig)) (r : MutationRecord).

Lemma raw_differs_same (a : option string) : raw_differs a a = false.
Proof. destruct a; simpl; [| done]. by rewrite String.eqb_refl. Qed.

Lemma raw_differs_true_ne (a b : option string) : raw_differs a b = true → a ≠ b.
Proof.
  intros Hd ->. by rewrite raw_differs_same in Hd.
Qed.

(** Pushing what was read from a raw attribute state gives that state back. *)
Lemma desired_dom_value_of_raw (raw : option string) :
  desired_dom_value (value_of_raw raw) = raw.
Proof. by destruct raw. Qed.

(** The watcher does nothing when the element already shows the value. *)
Lemma watchCallback_noop cfg (v : value) st el :
  targetRef st = Some el →
  (if type_is cfg TBoolean
   then hasAttribute el (attribute cfg) st = strict_eq v (VBool true)
   else getAttribute el (attribute cfg) st = desired_dom_value v) →
  watchCallback cfg v st = st.
Proof.
  intros Ht Hshows. unfold watchCallback. rewrite Ht.
  destruct (type_is cfg TBoolean).
  - rewrite Hshows. by destruct (strict_eq v (VBool true)).
  - rewrite Hshows. by rewrite raw_differs_same.
Qed.

(** Whether a record is reported, and how, whatever the binding is bound to. *)
Lemma process_record_calls table (cb : bool) el r st st' :
  process_record table cb el r st = Some st' →
  calls st' = calls st
  ∨ ∃ name cfg,
      attributeName r = Some name ∧ Map_get name table = Some cfg
      ∧ cb = true ∧ isUpdatingDomFromRef st = false
      ∧ raw_differs (oldValue r) (getAttribute el name st) = true
      ∧ calls st'
        = calls st ++ [{| call_attributeName := name;
                          call_oldValue := oldValue r;
                          call_newValue := getAttribute el name st;
                          call_interpretedValue :=
                            interpretedNewValue_of cfg el name st |}].
Proof.
  unfold process_record.
  destruct (is_attributes (record_type r) && Nat.eqb (record_target r) el);
    [| intros [= <-]; by left].
  destruct (attributeName r) as [name |] eqn:En; [| intros [= <-]; by left].
  destruct (Map_get name table) as [cfg |] eqn:Eg; [| intros [= <-]; by left].
  fold (interpretedNewValue_of cfg el name st).
  destruct (isUpdatingDomFromRef st) eqn:Ef; simpl.
  { destruct (reflect_is_true cfg); [| intros [= <-]; by left].
    unfold assign_if_different. repeat case_match; simpl; intros;
      simplify_option_eq; by left. }
  destruct cb; simpl.
  2: { destruct (reflect_is_true cfg); [| intros [= <-]; by left].
       unfold assign_if_different. repeat case_match; simpl; intros;
         simplify_option_eq; by left. }
  destruct (raw_differs (oldValue r) (getAttribute el name st)) eqn:Ed.
  - intros Hp. right. exists name, cfg. do 5 (split; [done |]).
    destruct (reflect_is_true cfg); [| by injection Hp as <-].
    unfold assign_if_different in Hp. repeat case_match; simpl in *;
      simplify_option_eq; done.
  - destruct (reflect_is_true cfg); [| intros [= <-]; by left].
    unfold assign_if_different. repeat case_match; simpl; intros;
      simplify_option_eq; by left.
Qed.

Lemma process_record_unbound table (cb : bool) el r st :
  record_bound table el r = false → process_record table cb el r st = Some st.
Proof.
  unfold record_bound, process_record.
  destruct (is_attributes (record_type r) && Nat.eqb (record_target r) el); [| done].
  destruct (attributeName r) as [name |]; [| done].
  by destruct (Map_get name table).
Qed.

End Settling.

(** X6. The watcher is idempotent: run again for the same value it finds the
    element as wanted and changes nothing (no write, no record, no timer). *)
Theorem watchCallback_idempotent {JN : JsNumber}
  (cfg : EffectiveConfig) (v : value) (st : State) :
  watchCallback cfg v (watchCallback cfg v st) = watchCallback cfg v st.
Proof.
  destruct (targetRef st) as [el |] eqn:Ht.
  - apply (watchCallback_noop cfg v _ el).
    + by destruct (watchCallback_fields cfg v st) as (-> & _).
    + unfold hasAttribute.
      rewrite (watchCallback_attribute cfg v st el el (attribute cfg) Ht).
      rewrite decide_True by done. unfold attribute_after.
      destruct (type_is cfg TBoolean); [| done].
      by destruct (strict_eq v (VBool true)).
  - assert (Hst : watchCallback cfg v st = st)
      by (unfold watchCallback; by rewrite Ht).
    by rewrite !Hst.
Qed.

(** X7. Inbound then outbound settles: once the observer has processed a
    record of a binding with [reflect = true], the cell holds what the
    observer read from the element (presence under a Boolean binding, the raw
    content or [null] otherwise), the element is untouched, and the watcher
    run for that cell value does nothing. *)
Theorem inbound_then_outbound_settles {JN : JsNumber}
  (table : list (string * EffectiveConfig)) (cb : bool)
  (st : State) (r : MutationRecord) (cfg : EffectiveConfig) (el l : nat) :
  targetRef st = Some el →
  record_type r = RtAttributes → record_target r = el →
  attributeName r = Some (attribute cfg) →
  Map_get (attribute cfg) table = Some cfg →
  ref cfg = RefCell l → reflect cfg = Some true →
  ∃ st', observerCallback table cb [r] st = Some st'
    ∧ ref_value (heap st') (RefCell l)
      = (if type_is cfg TBoolean then VBool (hasAttribute el (attribute cfg) st)
         else value_of_raw (getAttribute el (attribute cfg) st))
    ∧ document st' = document st
    ∧ watchCallback cfg (ref_value (heap st') (RefCell l)) st' = st'.
Proof.
  intros Ht Hrt Htg Hn Hg Hr Hrf.
  rewrite (observerCallback_single _ _ _ _ el Ht).
  destruct (process_record_bound table cb el r st (attribute cfg) cfg l
              Hrt Htg Hn Hg Hr)
    as (st' & Hp & Hdoc & Ht' & _ & _ & _ & _ & _ & Hcell).
  unfold reflect_is_true in Hcell. rewrite Hrf in Hcell. destruct Hcell as [Hcell _].
  exists st'. split; [exact Hp |]. split; [exact Hcell |]. split; [exact Hdoc |].
  apply (watchCallback_noop cfg _ st' el); [congruence |].
  rewrite Hcell. unfold interpretedNewValue_of, hasAttribute.
  rewrite (getAttribute_document st' st) by done.
  destruct (type_is cfg TBoolean).
  - simpl. by destruct (getAttribute el (attribute cfg) st).
  - by rewrite desired_dom_value_of_raw.
Qed.

(** A script has set [text="NEW TEXT"] on the attached page. *)
Lemma inbound_then_outbound_settles_witness :
  ∃ st', observerCallback readme_table true
           [record_of "text" (Some "default text") false]
           (attached {[ "text" := "NEW TEXT" ]} readme_cells) = Some st'
    ∧ ref_value (heap st') (RefCell 2) = VStr "NEW TEXT"
    ∧ watchCallback text_binding (ref_value (heap st') (RefCell 2)) st' = st'.
Proof.
  destruct (inbound_then_outbound_settles (JN := IntegerNumbers) readme_table true
              (attached {[ "text" := "NEW TEXT" ]} readme_cells)
              (record_of "text" (Some "default text") false) text_binding 7 2)
    as (st' & Hrun & Hcell & _ & Hnoop); [reflexivity .. |].
  exists st'. split; [exact Hrun |]. split; [exact Hcell | exact Hnoop].
Defined.

(** X8. The observer ignores every record that is not an attribute record of
    the current target for a bound name; a batch of such records, and any
    batch when the target reference is [null], leaves the state as it is. *)
Theorem unbound_records_ignored {JN : JsNumber}
  (table : list (string * EffectiveConfig)) (cb : bool)
  (records : list MutationRecord) (st : State) :
  (∀ el r, targetRef st = Some el → r ∈ records → record_bound table el r = false) →
  observerCallback table cb records st = Some st.
Proof.
  intros Hall. unfold observerCallback.
  destruct (targetRef st) as [el |]; [| done].
  specialize (Hall el). induction records as [| r rest IH]; simpl; [done |].
  rewrite process_record_unbound by (apply Hall; [done | apply elem_of_cons; by left]).
  simpl. apply IH. intros r' Ht Hin. apply Hall; [done |]. apply elem_of_cons. by right.
Qed.

(** A record of another element, a record of an attribute that is not bound,
    and a record that is not about attributes. *)
Lemma unbound_records_ignored_witness :
  observerCallback readme_table true
    [ {| record_type := RtAttributes; record_target := 8;
         attributeName := Some "text"; oldValue := None; by_engine := false |};
      record_of "title" None false;
      {| record_type := RtChildList; record_target := 7; attributeName := None;
         oldValue := None; by_engine := false |} ]
    (attached {[ "text" := "NEW TEXT" ]} readme_cells)
  = Some (attached {[ "text" := "NEW TEXT" ]} readme_cells).
Proof.
  apply (unbound_records_ignored (JN := IntegerNumbers)).
  intros el r [= <-] Hin.
  repeat (apply elem_of_cons in Hin as [-> | Hin]; [reflexivity |]).
  by apply elem_of_nil in Hin.
Defined.

Section Delivery.
Context {JN : JsNumber}.

Implicit Types (st : State) (el : nat) (cfg : EffectiveConfig).
Implicit Types (table : list (string * EffectiveConfig)) (r : MutationRecord).

Lemma well_reported_document table el st1 st2 (c : Call) :
  document st1 = document st2 →
  well_reported table el st1 c → well_reported table el st2 c.
Proof.
  intros Hd (cfg & Hg & Hn & Ho & Hi). exists cfg.
  unfold hasAttribute in *.
  rewrite <- !(getAttribute_document st1 st2) by done. done.
Qed.

Lemma process_records_calls table (cb : bool) el records st st' :
  process_records table cb el records st = Some st' →
  ∃ new, calls st' = calls st ++ new
    ∧ length new ≤ length records
    ∧ (isUpdatingDomFromRef st = true ∨ cb = false → new = [])
    ∧ ∀ c, c ∈ new → well_reported table el st c.
Proof.
  revert st. induction records as [| r rest IH]; intros st; simpl.
  - intros [= <-]. exists []. rewrite app_nil_r. repeat split; try done.
    intros c Hc. by apply elem_of_nil in Hc.
  - destruct (process_record table cb el r st) as [st1 |] eqn:E1; simpl; [| done].
    intros Hrest.
    destruct (process_record_keeps _ _ _ _ _ _ E1) as (Hf & _ & _ & _ & _ & Hd & _).
    destruct (IH st1 Hrest) as (new & Hc & Hlen & Hsil & Hwell).
    destruct (process_record_calls _ _ _ _ _ _ E1)
      as [Hsame | (name & cfg & Hn & Hg & Hcb & Hflag & Hdiff & Hcall)].
    + exists new. rewrite Hc, Hsame. repeat split; try done.
      * lia.
      * intros H. apply Hsil. by rewrite Hf.
      * intros c Hin. apply (well_reported_document table el st1 st); [done |].
        by apply Hwell.
    + eexists (_ :: new). rewrite Hc, Hcall, <- app_assoc. simpl.
      split; [reflexivity |]. split; [lia |]. split.
      * intros [H | H]; congruence.
      * intros c [-> | Hin]%elem_of_cons.
        -- exists cfg. simpl. repeat split; try done.
           by apply raw_differs_true_ne.
        -- apply (well_reported_document table el st1 st); [done |].
           by apply Hwell.
Qed.

End Delivery.

(** X9. In one delivery the callback is invoked at most once per record and
    not at all while the marker is raised or when no callback was given;
    every invocation is for a bound name, reports as new value the content
    the attribute has when the batch is delivered (not the content each
    write left), with an old value that differs from it, and carries the
    reading of that content. *)
Theorem delivery_reports_current_content {JN : JsNumber}
  (table : list (string * EffectiveConfig)) (cb : bool)
  (records : list MutationRecord) (st st' : State) (el : nat) :
  targetRef st = Some el →
  observerCallback table cb records st = Some st' →
  ∃ new, calls st' = calls st ++ new
    ∧ length new ≤ length records
    ∧ (isUpdatingDomFromRef st = true ∨ cb = false → new = [])
    ∧ ∀ c, c ∈ new → well_reported table el st c.
Proof.
  intros Ht. unfold observerCallback. rewrite Ht. apply process_records_calls.
Qed.

(** Two writes of [text] by a script before the delivery, "a" then "b": both
    records are reported with "b" as the new value. *)
Example two_writes_one_delivery :
  calls <$> observerCallback readme_table true
              [record_of "text" (Some "default text") false;
               record_of "text" (Some "a") false]
              (attached {[ "text" := "b" ]} readme_cells)
  = Some [ {| call_attributeName := "text"; call_oldValue := Some "default text";
              call_newValue := Some "b"; call_interpretedValue := VStr "b" |};
           {| call_attributeName := "text"; call_oldValue := Some "a";
              call_newValue := Some "b"; call_interpretedValue := VStr "b" |} ].
Proof. vm_compute. reflexivity. Qed.

Lemma delivery_reports_current_content_witness :
  ∃ st' new,
    observerCallback readme_table true
      [record_of "text" (Some "default text") false;
       record_of "text" (Some "a") false]
      (attached {[ "text" := "b" ]} readme_cells) = Some st'
    ∧ calls st' = new ∧ length new ≤ 2
    ∧ ∀ c, c ∈ new →
        well_reported readme_table 7 (attached {[ "text" := "b" ]} readme_cells) c.
Proof.
  destruct (observerCallback readme_table true
              [record_of "text" (Some "default text") false;
               record_of "text" (Some "a") false]
              (attached {[ "text" := "b" ]} readme_cells)) as [st' |] eqn:E;
    [| exfalso; vm_compute in E; discriminate].
  destruct (delivery_reports_current_content (JN := IntegerNumbers) readme_table true
              [record_of "text" (Some "default text") false;
               record_of "text" (Some "a") false]
              (attached {[ "text" := "b" ]} readme_cells) st' 7)
    as (new & Hc & Hlen & _ & Hwell); [reflexivity | exact E |].
  exists st', new. split; [reflexivity |]. split; [exact Hc |].
  split; [exact Hlen | exact Hwell].
Defined.

(** ** The initial synchronisation as a whole *)

Section Installation.
Context {JN : JsNumber}.

Implicit Types (st : State) (el target : nat) (config cfg : EffectiveConfig).
Implicit Types (table : list (string * EffectiveConfig)).

Lemma assign_if_different_stops (r : RefField) (v : value) st st' :
  assign_if_different r v st = Some st' →
  refToDomSyncStops st' = refToDomSyncStops st.
Proof.
  unfold assign_if_different. repeat case_match; simpl; intros;
    simplify_option_eq; done.
Qed.

Lemma mount_one_stops target config st st' :
  mount_one target config st = Some st' →
  refToDomSyncStops st' = refToDomSyncStops st ++ [attribute config].
Proof.
  unfold mount_one.
  set (st0 := with_stops (refToDomSyncStops st ++ [attribute config]) st).
  destruct (initial_push_fields target config st0) as (_ & _ & _ & _ & _ & _ & Hs).
  destruct (reflect_is_true config).
  - intros Ha. apply assign_if_different_stops in Ha. by rewrite Ha, Hs.
  - intros [= <-]. exact Hs.
Qed.

Lemma mount_all_stops target table st st' :
  mount_all target table st = Some st' →
  refToDomSyncStops st' = refToDomSyncStops st ++ (attribute ∘ snd <$> table).
Proof.
  revert st. induction table as [| [k cfg] rest IH]; intros st; simpl.
  - intros [= <-]. by rewrite app_nil_r.
  - destruct (mount_one target cfg st) as [st1 |] eqn:E1; simpl; [| done].
    intros Hrest. rewrite (IH st1 Hrest), (mount_one_stops _ _ _ _ E1).
    by rewrite <- app_assoc.
Qed.

Lemma mount_all_total target table st :
  (∀ k cfg, (k, cfg) ∈ table → ∃ l, ref cfg = RefCell l) →
  is_Some (mount_all target table st).
Proof.
  revert st. induction table as [| [k cfg] rest IH]; intros st Hall; simpl; [eauto |].
  destruct (Hall k cfg) as [l Hr]; [apply elem_of_cons; by left |].
  destruct (mount_one_cell target cfg l st Hr) as (st1 & -> & _). simpl.
  apply IH. intros k' cfg' Hin. apply (Hall k' cfg'). apply elem_of_cons. by right.
Qed.

(** Without [reflect = true] a binding's initial synchronisation writes no
    cell. *)
Lemma mount_one_heap target config st st' (l : nat) :
  mount_one target config st = Some st' →
  (ref config = RefCell l → reflect_is_true config = false) →
  heap st' !! l = heap st !! l.
Proof.
  intros Hm Hnr.
  destruct (ref config) as [l' | p] eqn:Er.
  - destruct (mount_one_cell target config l' st Er)
      as (st'' & Hm' & _ & Hfr & Hcell & _).
    rewrite Hm in Hm'. injection Hm' as <-.
    destruct (decide (l = l')) as [-> | Hne]; [| by apply Hfr].
    rewrite Hnr in Hcell by done. by rewrite Hcell.
  - destruct (mount_one_frame _ _ _ _ Hm) as (_ & Hh & _).
    apply Hh. rewrite Er. discriminate.
Qed.

Lemma mount_all_heap target table st st' (l : nat) :
  mount_all target table st = Some st' →
  (∀ k cfg, (k, cfg) ∈ table → ref cfg = RefCell l → reflect_is_true cfg = false) →
  heap st' !! l = heap st !! l.
Proof.
  revert st. induction table as [| [k cfg] rest IH]; intros st; simpl.
  - by intros [= <-].
  - destruct (mount_one target cfg st) as [st1 |] eqn:E1; simpl; [| done].
    intros Hrest Hall. rewrite (IH st1 Hrest).
    + apply (mount_one_heap _ _ _ _ _ E1). apply (Hall k cfg).
      apply elem_of_cons. by left.
    + intros k' cfg' Hin. apply (Hall k' cfg'). apply elem_of_cons. by right.
Qed.

Lemma mountedCallback_attaches target table st :
  (∀ k cfg, (k, cfg) ∈ table → ∃ l, ref cfg = RefCell l) →
  ∃ st', mountedCallback table target st = Some st'
    ∧ observer st' = Some (target, Map_keys table)
    ∧ refToDomSyncStops st' = refToDomSyncStops st ++ (attribute ∘ snd <$> table).
Proof.
  intros Hall. unfold mountedCallback.
  destruct (mount_all_total target table st Hall) as [st1 Hm]. rewrite Hm. simpl.
  eexists. split; [reflexivity |]. split; [reflexivity |].
  exact (mount_all_stops target table st st1 Hm).
Qed.

End Installation.

(** X10. On a table whose bindings are all bound to cells, [mountedCallback]
    completes, and it is silent: it invokes no callback, raises no marker,
    schedules no timer and queues no record (the observer is installed last).
    Afterwards the observer watches the target with the table's keys as
    filter, and one watcher per binding is installed, in table order. *)
Theorem mountedCallback_installs_silently {JN : JsNumber}
  (table : list (string * EffectiveConfig)) (target : nat) (st : State) :
  observer st = None →
  (∀ k cfg, (k, cfg) ∈ table → ∃ l, ref cfg = RefCell l) →
  ∃ st', mountedCallback table target st = Some st'
    ∧ calls st' = calls st ∧ pending st' = pending st
    ∧ isUpdatingDomFromRef st' = isUpdatingDomFromRef st
    ∧ timeouts st' = timeouts st ∧ targetRef st' = targetRef st
    ∧ observer st' = Some (target, Map_keys table)
    ∧ refToDomSyncStops st'
      = refToDomSyncStops st ++ (attribute ∘ snd <$> table).
Proof.
  intros Ho Hall. unfold mountedCallback.
  destruct (mount_all_total target table st Hall) as [st1 Hm]. rewrite Hm. simpl.
  destruct (mount_all_frame _ _ _ _ Hm) as (_ & _ & Ht & Hf & Hti & _ & Hc & Hp).
  eexists. split; [reflexivity |]. simpl.
  split; [exact Hc |]. split; [by apply Hp |]. split; [exact Hf |].
  split; [exact Hti |]. split; [exact Ht |]. split; [reflexivity |].
  by apply (mount_all_stops target).
Qed.

Lemma mountedCallback_installs_silently_witness :
  ∃ st', mountedCallback readme_table 7 (page {[ "text" := "NEW TEXT" ]} readme_cells)
         = Some st'
    ∧ calls st' = [] ∧ pending st' = [] ∧ isUpdatingDomFromRef st' = false
    ∧ observer st' = Some (7, ["disabled"; "selected"; "text"; "paragraph"; "count"])
    ∧ refToDomSyncStops st' = ["disabled"; "selected"; "text"; "paragraph"; "count"].
Proof.
  destruct (mountedCallback_installs_silently (JN := IntegerNumbers) readme_table 7
              (page {[ "text" := "NEW TEXT" ]} readme_cells) eq_refl)
    as (st' & Hm & Hc & Hp & Hf & _ & _ & Ho & Hs).
  - intros k cfg Hin.
    repeat (apply elem_of_cons in Hin as [[= -> ->] | Hin]; [by eexists |]).
    by apply elem_of_nil in Hin.
  - exists st'. split; [exact Hm |]. split; [exact Hc |]. split; [exact Hp |].
    split; [exact Hf |]. split; [exact Ho | exact Hs].
Defined.

(** X11. The footprint of the initial synchronisation: it touches no
    attribute of another element and none whose name is not bound, and it
    writes a cell only through a binding with [reflect = true]. *)
Theorem initial_synchronisation_footprint {JN : JsNumber}
  (table : list (string * EffectiveConfig)) (target : nat) (st st' : State) :
  mountedCallback table target st = Some st' →
  (∀ el name,
     el ≠ target ∨ (∀ k cfg, (k, cfg) ∈ table → attribute cfg ≠ name) →
     getAttribute el name st' = getAttribute el name st)
  ∧ (∀ l,
       (∀ k cfg, (k, cfg) ∈ table → ref cfg = RefCell l → reflect cfg ≠ Some true) →
       heap st' !! l = heap st !! l).
Proof.
  unfold mountedCallback.
  destruct (mount_all target table st) as [st1 |] eqn:Hm; simpl; [| done].
  intros [= <-]. split.
  - intros el name Hout.
    rewrite (getAttribute_document (observe target (Map_keys table) st1) st1) by done.
    destruct (mount_all_frame _ _ _ _ Hm) as (Ha & _).
    apply Ha. intros k cfg Hin [He Hn].
    destruct Hout as [Hel | Hname]; [done |]. by apply (Hname k cfg).
  - intros l Hnr. simpl. apply (mount_all_heap _ _ _ _ _ Hm).
    intros k cfg Hin Hr. specialize (Hnr k cfg Hin Hr).
    unfold reflect_is_true. by destruct (reflect cfg) as [[] |].
Qed.

(** On the README's page the cell of the one-way binding [paragraph] and the
    attribute [title], which is not bound, are left alone. *)
Lemma initial_synchronisation_footprint_witness :
  ∃ st', mountedCallback readme_table 7
           (page {[ "paragraph" := "NEW TEXT"; "title" := "t" ]} readme_cells)
         = Some st'
    ∧ getAttribute 7 "title" st' = Some "t"
    ∧ heap st' !! 3 = Some (VStr "default text").
Proof.
  destruct (mountedCallback readme_table 7
              (page {[ "paragraph" := "NEW TEXT"; "title" := "t" ]} readme_cells))
    as [st' |] eqn:E; [| exfalso; vm_compute in E; discriminate].
  destruct (initial_synchronisation_footprint (JN := IntegerNumbers) readme_table 7
              (page {[ "paragraph" := "NEW TEXT"; "title" := "t" ]} readme_cells)
              st' E) as [Hattr Hheap].
  exists st'. split; [reflexivity |]. split.
  - rewrite Hattr; [reflexivity |]. right. intros k cfg Hin.
    repeat (apply elem_of_cons in Hin as [[= -> ->] | Hin]; [discriminate |]).
    by apply elem_of_nil in Hin.
  - rewrite Hheap; [reflexivity |]. intros k cfg Hin.
    repeat (apply elem_of_cons in Hin as [[= -> ->] | Hin]; [by (discriminate || (intros _; discriminate)) |]).
    by apply elem_of_nil in Hin.
Defined.

(** ** The marker's timers *)

Section Timers.
Context {JN : JsNumber}.

Implicit Types (st : State) (table : list (string * EffectiveConfig)).

Lemma step_marker_has_timer table (cb : bool) (ev : Event) st st' :
  marker_has_timer st → step table cb ev st = Some st' → marker_has_timer st'.
Proof.
  unfold marker_has_timer. intros Hinv.
  destruct ev as [l v | name | el name content | el name | t | |]; cbn [step].
  - intros [= <-]. exact Hinv.
  - destruct (string_in name (refToDomSyncStops st)); [| done].
    destruct (Map_get name table) as [cfg |]; [| done].
    destruct (ref cfg) as [l | v]; [| done].
    intros [= <-].
    match goal with |- context [watchCallback cfg ?v st] =>
      destruct (watchCallback_marker cfg v st) as [-> | (_ & -> & _)] end;
      [exact Hinv | intros _; lia].
  - intros [= <-].
    destruct (setAttribute_fields false el name content st) as (_ & _ & -> & -> & _).
    exact Hinv.
  - intros [= <-].
    destruct (removeAttribute_fields false el name st) as (_ & _ & -> & -> & _).
    exact Hinv.
  - intros [= <-]. exact Hinv.
  - destruct (pending st) as [| r0 rs]; [by intros [= <-] |].
    unfold observerCallback.
    change (targetRef (with_pending [] st)) with (targetRef st).
    destruct (targetRef st) as [el |]; [| by intros [= <-]].
    intros Hp. apply process_records_keeps in Hp as (-> & _ & -> & _). exact Hinv.
  - destruct (timeouts st) as [| n]; [done |].
    destruct (pending st); [| done]. by intros [= <-].
Qed.

Lemma run_marker_has_timer table (cb : bool) (evs : list Event) st st' :
  marker_has_timer st → run table cb evs st = Some st' → marker_has_timer st'.
Proof.
  revert st. induction evs as [| ev rest IH]; intros st Hinv; simpl.
  - by intros [= <-].
  - destruct (step table cb ev st) as [st1 |] eqn:E1; simpl; [| done].
    apply IH. by apply (step_marker_has_timer table cb ev st).
Qed.

(** With nothing queued, the pending timers run one after the other and leave
    the marker down. *)
Lemma timers_run_out table (cb : bool) (n : nat) st :
  timeouts st = n → pending st = [] →
  (n = 0 → isUpdatingDomFromRef st = false) →
  ∃ st', run table cb (replicate n TimerFires) st = Some st'
    ∧ isUpdatingDomFromRef st' = false ∧ timeouts st' = 0
    ∧ heap st' = heap st ∧ document st' = document st ∧ calls st' = calls st
    ∧ targetRef st' = targetRef st ∧ pending st' = [].
Proof.
  revert st. induction n as [| n IH]; intros st Hn Hp H0.
  - exists st. simpl. repeat split; try done. by apply H0.
  - cbn [replicate]. rewrite run_cons. cbn [step]. rewrite Hn, Hp.
    cbn [mbind option_bind].
    destruct (IH (with_flag false (with_timeouts n st))) as (st' & Hr & Hrest);
      [done | done | done |].
    exists st'. split; [exact Hr | exact Hrest].
Qed.

End Timers.

(** X12. A raised marker never stays: in every state the attached engine can
    reach, a raised marker has a timer waiting, and once nothing is queued the
    timers that are pending run and leave the marker down, without touching
    the cells, the element or the callback log. *)
Theorem raised_marker_is_cleared {JN : JsNumber}
  (table : list (string * EffectiveConfig)) (cb : bool) (target : nat)
  (st0 st1 st : State) (evs : list Event) :
  isUpdatingDomFromRef st0 = false →
  mountedCallback table target st0 = Some st1 →
  run table cb evs st1 = Some st →
  (isUpdatingDomFromRef st = true → 0 < timeouts st)
  ∧ (pending st = [] →
     ∃ st', run table cb (replicate (timeouts st) TimerFires) st = Some st'
       ∧ isUpdatingDomFromRef st' = false ∧ timeouts st' = 0
       ∧ heap st' = heap st ∧ document st' = document st ∧ calls st' = calls st).
Proof.
  intros Hf Hm Hrun.
  assert (Hinv : marker_has_timer st).
  { apply (run_marker_has_timer table cb evs st1 st); [| done].
    unfold mountedCallback in Hm.
    destruct (mount_all target table st0) as [s |] eqn:E; simpl in Hm; [| done].
    injection Hm as <-.
    destruct (mount_all_frame _ _ _ _ E) as (_ & _ & _ & Hf' & _).
    unfold marker_has_timer. simpl. rewrite Hf', Hf. discriminate. }
  split; [exact Hinv |].
  intros Hp.
  destruct (timers_run_out table cb (timeouts st) st eq_refl Hp)
    as (st' & Hr & Hfl & Hti & Hh & Hd & Hc & _).
  - intros H0. destruct (isUpdatingDomFromRef st) eqn:E; [| done].
    pose proof (Hinv E). lia.
  - exists st'. repeat split; done.
Qed.

(** The cell of [disabled] set to [true] and the record delivered: one timer
    is pending, and it lowers the marker. *)
Lemma raised_marker_is_cleared_witness :
  ∃ st st',
    run readme_table true [CellWrite 0 (VBool true); RunWatcher "disabled"; Deliver]
      (attached {[ "text" := "default text"; "paragraph" := "default text" ]}
         readme_cells) = Some st
    ∧ isUpdatingDomFromRef st = true ∧ timeouts st = 1
    ∧ run readme_table true (replicate (timeouts st) TimerFires) st = Some st'
    ∧ isUpdatingDomFromRef st' = false.
Proof.
  set (st := {| targetRef := Some 7;
                document := {[ 7 := {[ "disabled" := ""; "text" := "default text";
                                       "paragraph" := "default text" ]} ]};
                heap := <[ 0 := VBool true ]> readme_cells;
                isUpdatingDomFromRef := true; timeouts := 1;
                observer := Some (7, Map_keys readme_table);
                pending := []; calls := [];
                refToDomSyncStops := Map_keys readme_table |}
              : State (JN := IntegerNumbers)).
  assert (Hrun : run readme_table true
                   [CellWrite 0 (VBool true); RunWatcher "disabled"; Deliver]
                   (attached {[ "text" := "default text"; "paragraph" := "default text" ]}
                      readme_cells) = Some st)
    by (vm_compute; reflexivity).
  destruct (raised_marker_is_cleared (JN := IntegerNumbers) readme_table true 7
              (page ∅ readme_cells)
              (attached {[ "text" := "default text"; "paragraph" := "default text" ]}
                 readme_cells)
              st [CellWrite 0 (VBool true); RunWatcher "disabled"; Deliver])
    as [_ Hclear]; [reflexivity | exact readme_mounted | exact Hrun |].
  destruct (Hclear eq_refl) as (st' & Hr & Hf & _).
  exists st, st'. split; [exact Hrun |]. split; [reflexivity |].
  split; [reflexivity |]. split; [exact Hr | exact Hf].
Defined.

(** ** Teardown and the mount hook *)

Section Teardown.
Context {JN : JsNumber}.

Implicit Types (st : State) (table : list (string * EffectiveConfig)).

Lemma step_observer table (cb : bool) (ev : Event) st st' :
  step table cb ev st = Some st' → observer st' = observer st.
Proof.
  destruct ev as [l v | name | el name content | el name | t | |]; cbn [step].
  - by intros [= <-].
  - destruct (string_in name (refToDomSyncStops st)); [| done].
    destruct (Map_get name table) as [cfg |]; [| done].
    destruct (ref cfg) as [l | v]; [| done].
    intros [= <-].
    match goal with |- context [watchCallback cfg ?v st] =>
      by destruct (watchCallback_fields cfg v st) as (_ & _ & _ & -> & _) end.
  - intros [= <-].
    by destruct (setAttribute_fields false el name content st) as (_ & _ & _ & _ & -> & _).
  - intros [= <-].
    by destruct (removeAttribute_fields false el name st) as (_ & _ & _ & _ & -> & _).
  - by intros [= <-].
  - destruct (pending st) as [| r0 rs]; [by intros [= <-] |].
    unfold observerCallback.
    change (targetRef (with_pending [] st)) with (targetRef st).
    destruct (targetRef st) as [el |]; [| by intros [= <-]].
    intros Hp. by apply process_records_keeps in Hp as (_ & _ & _ & -> & _).
  - destruct (timeouts st) as [| n]; [done |].
    destruct (pending st); [| done]. by intros [= <-].
Qed.

Lemma run_observer table (cb : bool) (evs : list Event) st st' :
  run table cb evs st = Some st' → observer st' = observer st.
Proof.
  revert st. induction evs as [| ev rest IH]; intros st; simpl.
  - by intros [= <-].
  - destruct (step table cb ev st) as [st1 |] eqn:E1; simpl; [| done].
    intros Hrest. by rewrite (IH st1 Hrest), (step_observer _ _ _ _ _ E1).
Qed.

Lemma run_detached table (cb : bool) (evs : list Event) st st' :
  observer st = None → pending st = [] → refToDomSyncStops st = [] →
  run table cb evs st = Some st' →
  calls st' = calls st ∧ pending st' = [] ∧ observer st' = None
  ∧ refToDomSyncStops st' = []
  ∧ heap st' = cells_after evs (heap st)
  ∧ document st' = document_after evs (document st)
  ∧ ∀ name, RunWatcher name ∉ evs.
Proof.
  revert st. induction evs as [| ev rest IH]; intros st Ho Hp Hs.
  - intros [= <-]. repeat split; try done. intros name Hin. by apply elem_of_nil in Hin.
  - rewrite run_cons.
    destruct (step table cb ev st) as [st1 |] eqn:E1; [| done].
    cbn [mbind option_bind]. intros Hrest.
    assert (H1 : observer st1 = None ∧ pending st1 = [] ∧ refToDomSyncStops st1 = []
                 ∧ calls st1 = calls st
                 ∧ cells_after (ev :: rest) (heap st) = cells_after rest (heap st1)
                 ∧ document_after (ev :: rest) (document st)
                   = document_after rest (document st1)
                 ∧ ∀ name, ev ≠ RunWatcher name).
    { destruct ev as [l v | name | el name content | el name | t | |];
        cbn [step] in E1.
      - injection E1 as <-. done.
      - by rewrite Hs in E1.
      - injection E1 as <-. unfold setAttribute.
        rewrite queue_record_unobserved by done. done.
      - injection E1 as <-. unfold removeAttribute, getAttribute, attributes_of.
        simpl. destruct (default ∅ (document st !! el) !! name); [| done].
        rewrite queue_record_unobserved by done. done.
      - injection E1 as <-. done.
      - rewrite Hp in E1. injection E1 as <-. done.
      - destruct (timeouts st); [done |]. rewrite Hp in E1. injection E1 as <-. done. }
    destruct H1 as (Ho1 & Hp1 & Hs1 & Hc1 & Hh1 & Hd1 & Hne).
    destruct (IH st1 Ho1 Hp1 Hs1 Hrest) as (Hc & Hp' & Ho' & Hs' & Hh & Hd & Hnw).
    repeat split; try congruence.
    intros name [Heq | Hin]%elem_of_cons; [by apply (Hne name) | by apply (Hnw name)].
Qed.

End Teardown.

(** X13. After [onUnmounted] the engine does nothing more. Whatever the host
    did between mounting and unmounting, and however it goes on afterwards:
    no watcher can run any more, no record is queued or delivered, the
    callback is not invoked, and the cells and the element change only by
    what user code and scripts write themselves. *)
Theorem after_unmount_engine_is_silent {JN : JsNumber}
  (table : list (string * EffectiveConfig)) (cb : bool) (target : nat)
  (st0 st1 st st' : State) (before after : list Event) :
  mountedCallback table target st0 = Some st1 →
  run table cb before st1 = Some st →
  run table cb after (onUnmounted st) = Some st' →
  calls st' = calls st ∧ pending st' = [] ∧ observer st' = None
  ∧ refToDomSyncStops st' = []
  ∧ heap st' = cells_after after (heap st)
  ∧ document st' = document_after after (document st)
  ∧ ∀ name, RunWatcher name ∉ after.
Proof.
  intros Hm Hbefore Hafter.
  assert (Ho : observer st = Some (target, Map_keys table)).
  { rewrite (run_observer _ _ _ _ _ Hbefore). unfold mountedCallback in Hm.
    destruct (mount_all target table st0) as [s |]; simpl in Hm; [| done].
    by injection Hm as <-. }
  assert (Hu : onUnmounted st = with_stops [] (with_observer None (with_pending [] st)))
    by (unfold onUnmounted; by rewrite Ho).
  rewrite Hu in Hafter.
  apply run_detached in Hafter; [exact Hafter | done ..].
Qed.

(** The README page, unmounted while a record of the engine's own write is
    still queued; afterwards a script sets [text], the queue is delivered, the
    cell of [text] is written and the timer fires. *)
Lemma after_unmount_engine_is_silent_witness :
  ∃ st st',
    run readme_table true [CellWrite 0 (VBool true); RunWatcher "disabled"]
      (attached {[ "text" := "default text"; "paragraph" := "default text" ]}
         readme_cells) = Some st
    ∧ pending st = [record_of "disabled" None true]
    ∧ run readme_table true
        [ExternalSet 7 "text" "NEW TEXT"; Deliver; CellWrite 2 (VStr "other"); TimerFires]
        (onUnmounted st) = Some st'
    ∧ calls st' = [] ∧ pending st' = []
    ∧ heap st' !! 2 = Some (VStr "other")
    ∧ default ∅ (document st' !! 7) !! "text" = Some "NEW TEXT".
Proof.
  set (st := {| targetRef := Some 7;
                document := {[ 7 := {[ "disabled" := ""; "text" := "default text";
                                       "paragraph" := "default text" ]} ]};
                heap := <[ 0 := VBool true ]> readme_cells;
                isUpdatingDomFromRef := true; timeouts := 1;
                observer := Some (7, Map_keys readme_table);
                pending := [record_of "disabled" None true]; calls := [];
                refToDomSyncStops := Map_keys readme_table |}
              : State (JN := IntegerNumbers)).
  set (st' := {| targetRef := Some 7;
                 document := {[ 7 := {[ "disabled" := ""; "text" := "NEW TEXT";
                                        "paragraph" := "default text" ]} ]};
                 heap := <[ 2 := VStr "other" ]> (<[ 0 := VBool true ]> readme_cells);
                 isUpdatingDomFromRef := false; timeouts := 0;
                 observer := None; pending := []; calls := [];
                 refToDomSyncStops := [] |}
               : State (JN := IntegerNumbers)).
  assert (Hbefore : run readme_table true [CellWrite 0 (VBool true); RunWatcher "disabled"]
                      (attached {[ "text" := "default text"; "paragraph" := "default text" ]}
                         readme_cells) = Some st)
    by (vm_compute; reflexivity).
  assert (Hafter : run readme_table true
                     [ExternalSet 7 "text" "NEW TEXT"; Deliver; CellWrite 2 (VStr "other");
                      TimerFires]
                     (onUnmounted st) = Some st')
    by (vm_compute; reflexivity).
  destruct (after_unmount_engine_is_silent (JN := IntegerNumbers) readme_table true 7
              (page ∅ readme_cells)
              (attached {[ "text" := "default text"; "paragraph" := "default text" ]}
                 readme_cells)
              st st' [CellWrite 0 (VBool true); RunWatcher "disabled"]
              [ExternalSet 7 "text" "NEW TEXT"; Deliver; CellWrite 2 (VStr "other");
               TimerFires])
    as (Hc & Hp & _); [exact readme_mounted | exact Hbefore | exact Hafter |].
  exists st, st'. split; [exact Hbefore |]. split; [reflexivity |].
  split; [exact Hafter |]. split; [exact Hc |]. split; [exact Hp |].
  split; vm_compute; reflexivity.
Defined.

(** X14. The two settings of [tick] differ only in when the engine attaches:
    with nothing else waiting for the next tick, the mount hook with
    [tick: 'after'] (the default) followed by that tick leaves the component
    as the mount hook with [tick: 'before'] does at once. *)
Theorem tick_after_is_tick_before_deferred {JN : JsNumber}
  (hooks : Hooks) (c : Component) :
  nextTicks c = [] →
  default TickAfter (hooks_tick hooks) = TickAfter →
  (c' ← onMounted hooks c; runNextTick hooks c')
  = onMounted {| hooks_table := hooks_table hooks;
                 hooks_onAttributeChange := hooks_onAttributeChange hooks;
                 hooks_tick := Some TickBefore |} c.
Proof.
  intros Hn Ht. unfold onMounted. rewrite Ht. cbn [hooks_tick hooks_table default].
  destruct (window_defined c) eqn:Ew; cbn [negb].
  - destruct (targetRef (engine c)) as [target |] eqn:Et.
    + cbn [mbind option_bind]. unfold runNextTick.
      cbn [nextTicks engine window_defined mount_warnings]. rewrite Hn. cbn [app].
      destruct (mountedCallback (hooks_table hooks) target (engine c)) as [st' |];
        cbn [mbind option_bind]; [| done].
      unfold with_engine. by rewrite Hn, ?Ew.
    + cbn [mbind option_bind]. unfold runNextTick. cbn [nextTicks]. by rewrite Hn, ?Ew.
  - cbn [mbind option_bind]. unfold runNextTick. by rewrite Hn.
Qed.

Lemma tick_after_is_tick_before_deferred_witness :
  ∃ c,
    (c' ← onMounted {| hooks_table := readme_table; hooks_onAttributeChange := true;
                       hooks_tick := None |}
            {| engine := page ∅ readme_cells; window_defined := true;
               mount_warnings := 0; nextTicks := [] |};
     runNextTick {| hooks_table := readme_table; hooks_onAttributeChange := true;
                    hooks_tick := None |} c') = Some c
    ∧ onMounted {| hooks_table := readme_table; hooks_onAttributeChange := true;
                   hooks_tick := Some TickBefore |}
        {| engine := page ∅ readme_cells; window_defined := true;
           mount_warnings := 0; nextTicks := [] |} = Some c
    ∧ observer (engine c) = Some (7, Map_keys readme_table).
Proof.
  exists {| engine := attached {[ "text" := "default text"; "paragraph" := "default text" ]}
                        readme_cells;
            window_defined := true; mount_warnings := 0; nextTicks := [] |}.
  assert (Hb : onMounted {| hooks_table := readme_table; hooks_onAttributeChange := true;
                            hooks_tick := Some TickBefore |}
                 {| engine := page ∅ readme_cells; window_defined := true;
                    mount_warnings := 0; nextTicks := [] |}
               = Some {| engine := attached {[ "text" := "default text";
                                               "paragraph" := "default text" ]}
                                     readme_cells;
                         window_defined := true; mount_warnings := 0; nextTicks := [] |}).
  { unfold onMounted. cbn [negb window_defined engine hooks_tick hooks_table default].
    change (targetRef (page ∅ readme_cells)) with (Some 7).
    cbn iota. rewrite readme_mounted. reflexivity. }
  split; [| split; [exact Hb | reflexivity]].
  rewrite <- Hb.
  apply (tick_after_is_tick_before_deferred (JN := IntegerNumbers)
           {| hooks_table := readme_table; hooks_onAttributeChange := true;
              hooks_tick := None |}
           {| engine := page ∅ readme_cells; window_defined := true;
              mount_warnings := 0; nextTicks := [] |}); reflexivity.
Defined.

(** X15. A deferred [mountedCallback] is not cancelled by [onUnmounted]: when
    the component is unmounted before the tick, the tick still installs the
    observer on the element captured at mount and one watcher per binding. *)
Theorem deferred_mount_survives_unmount {JN : JsNumber}
  (hooks : Hooks) (c : Component) (target : nat) :
  window_defined c = true →
  targetRef (engine c) = Some target →
  default TickAfter (hooks_tick hooks) = TickAfter →
  nextTicks c = [] →
  (∀ k cfg, (k, cfg) ∈ hooks_table hooks → ∃ l, ref cfg = RefCell l) →
  ∃ c1 c2,
    onMounted hooks c = Some c1 ∧ engine c1 = engine c
    ∧ runNextTick hooks (with_engine (onUnmounted (engine c1)) c1) = Some c2
    ∧ observer (engine c2) = Some (target, Map_keys (hooks_table hooks))
    ∧ refToDomSyncStops (engine c2) = attribute ∘ snd <$> hooks_table hooks
    ∧ nextTicks c2 = [].
Proof.
  intros Hw Ht Htick Hn Hall. unfold onMounted. rewrite Hw, Ht, Htick, Hn.
  cbn [negb app]. eexists.
  destruct (mountedCallback_attaches target (hooks_table hooks)
              (onUnmounted (engine c)) Hall)
    as (st' & Hm & Ho & Hs).
  exists {| engine := st'; window_defined := true; mount_warnings := mount_warnings c;
            nextTicks := [] |}.
  split; [reflexivity |]. split; [reflexivity |].
  unfold runNextTick, with_engine.
  cbn [nextTicks engine window_defined mount_warnings]. rewrite Hm.
  cbn [mbind option_bind]. split; [reflexivity |].
  split; [exact Ho |]. split; [exact Hs | reflexivity].
Qed.

Lemma deferred_mount_survives_unmount_witness :
  ∃ c1 c2,
    onMounted {| hooks_table := readme_table; hooks_onAttributeChange := true;
                 hooks_tick := None |}
      {| engine := page ∅ readme_cells; window_defined := true;
         mount_warnings := 0; nextTicks := [] |} = Some c1
    ∧ runNextTick {| hooks_table := readme_table; hooks_onAttributeChange := true;
                     hooks_tick := None |}
        (with_engine (onUnmounted (engine c1)) c1) = Some c2
    ∧ observer (engine c2) = Some (7, Map_keys readme_table).
Proof.
  destruct (deferred_mount_survives_unmount (JN := IntegerNumbers)
              {| hooks_table := readme_table; hooks_onAttributeChange := true;
                 hooks_tick := None |}
              {| engine := page ∅ readme_cells; window_defined := true;
                 mount_warnings := 0; nextTicks := [] |} 7)
    as (c1 & c2 & H1 & _ & H2 & Ho & _);
    [reflexivity | reflexivity | reflexivity | reflexivity | |].
  - intros k cfg Hin. change (( k, cfg) ∈ readme_table) in Hin. unfold readme_table in Hin.
    repeat (apply elem_of_cons in Hin as [[= -> ->] | Hin]; [eexists; reflexivity |]).
    by apply elem_of_nil in Hin.
  - exists c1, c2. split; [exact H1 |]. split; [exact H2 | exact Ho].
Defined.

(** X16. The mount hook does nothing where it cannot work: without a
    [window], or with an empty target reference, the engine is left as it is
    and nothing is deferred to the next tick; the hook warns in the second
    case only. *)
Theorem onMounted_without_window_or_target {JN : JsNumber}
  (hooks : Hooks) (c : Component) :
  window_defined c = false ∨ targetRef (engine c) = None →
  ∃ c', onMounted hooks c = Some c'
    ∧ engine c' = engine c ∧ nextTicks c' = nextTicks c
    ∧ window_defined c' = window_defined c
    ∧ mount_warnings c'
      = if window_defined c then S (mount_warnings c) else mount_warnings c.
Proof.
  intros Hcase. unfold onMounted.
  destruct (window_defined c) eqn:Hw; cbn [negb].
  - destruct Hcase as [| Ht]; [done |]. rewrite Ht.
    eexists. split; [reflexivity |].
    cbn [engine nextTicks window_defined mount_warnings]. done.
  - exists c. repeat split; done.
Qed.

Lemma onMounted_without_window_or_target_witness :
  ∃ c', onMounted {| hooks_table := readme_table; hooks_onAttributeChange := true;
                     hooks_tick := Some TickBefore |}
          {| engine := with_targetRef None (page ∅ readme_cells);
             window_defined := true; mount_warnings := 0; nextTicks := [] |} = Some c'
    ∧ observer (engine c') = None ∧ mount_warnings c' = 1.
Proof.
  destruct (onMounted_without_window_or_target (JN := IntegerNumbers)
              {| hooks_table := readme_table; hooks_onAttributeChange := true;
                 hooks_tick := Some TickBefore |}
              {| engine := with_targetRef None (page ∅ readme_cells);
                 window_defined := true; mount_warnings := 0; nextTicks := [] |})
    as (c' & H1 & He & _ & _ & Hmw); [right; reflexivity |].
  exists c'. split; [exact H1 |]. split; [by rewrite He | exact Hmw].
Defined.

(** ** Repeated names and the type test *)

Section Repeated.
Context {JN : JsNumber}.

Lemma normalise_from_get attributes acc n (name : string) :
  normalise_from attributes acc = Some n →
  Map_get name (attributeConfigMap n)
  = match last_accepted name attributes with
    | Some e => Some e
    | None => Map_get name (attributeConfigMap acc)
    end.
Proof.
  revert acc. induction attributes as [| config rest IH]; intros acc.
  - by intros [= <-].
  - rewrite normalise_from_cons.
    destruct (normalise_one config acc) as [acc' |] eqn:E1; [| done].
    cbn [mbind option_bind]. intros Hn. rewrite (IH acc' Hn).
    cbn [last_accepted].
    destruct (last_accepted name rest) as [e |]; [done |].
    unfold accepted_binding.
    destruct (config_valid config) eqn:Ev.
    + destruct config as [c |]; [| done].
      destruct (normalise_one_valid c acc Ev) as (a & h' & Ha & _ & _ & _ & E2).
      rewrite E1 in E2. injection E2 as ->.
      cbn [mbind option_bind]. rewrite Ha. cbn [mbind option_bind attributeConfigMap].
      change (attribute (effectiveConfig_of c a)) with a.
      destruct (String.eqb a name) eqn:Ea.
      * apply String.eqb_eq in Ea. subst. apply Map_get_set_eq.
      * apply String.eqb_neq in Ea. by apply Map_get_set_ne.
    + rewrite normalise_one_invalid in E1 by done. by injection E1 as <-.
Qed.

End Repeated.

(** X17. When several accepted declarations name the same attribute, the
    table holds the binding of the last of them (at the place of the first,
    by X3); a name no accepted declaration gives is not in the table. *)
Theorem last_declaration_wins {JN : JsNumber}
  (attributes : list (option AttributeRefConfig)) (h : gmap nat value) :
  ∃ n, makeAttributeConfigMap attributes h = Some n
    ∧ ∀ name, Map_get name (attributeConfigMap n) = last_accepted name attributes.
Proof.
  destruct (normalise_from_total attributes
              {| attributeConfigMap := []; cells := h; warnings := [] |}) as [n Hn].
  exists n. split; [exact Hn |]. intros name.
  rewrite (normalise_from_get _ _ _ name Hn). simpl.
  by destruct (last_accepted name attributes).
Qed.

